(** * molpal.explorer: the Explorer's bookkeeping, verified

    A shallow embedding of [src/molpal/explorer.py].  The Explorer drives a
    batched Bayesian optimisation over a fixed pool: it keeps the dictionaries
    of scored and failed inputs, computes the top-k average, decides when to
    stop, and writes / replays per-epoch score tables.

    Modelling conventions.
    - Python [int] is [Z]; a Python [float] is the rational it denotes ([Qc],
      canonical rationals), so arithmetic is exact: rounding, NaN and the
      infinities are outside the model.
    - A Python [dict] keeps insertion order, and [sorted] / [heapq.nlargest]
      break ties by that order, so a dict is an association list with unique
      keys, updated in place ([PyDict.set]).
    - A method that can raise returns an [outcome]; a method that mutates
      [self] or the disk returns the new world next to its outcome, so the
      mutations made before a [raise] stay visible, as in Python.
    - The pool, acquirer, model and objective are collaborators outside this
      module: total functions threading a state [Env] of their own.  The pool
      is the list [pool.smis()]; cluster ids and fingerprints stay inside the
      collaborators.
    - A file is the list of rows after its header; a path is the pair of
      numbers its name is formatted from.  Directory creation, I/O errors,
      [verbose] and the text printed are left out. *)

From Stdlib Require Import ZArith QArith Qcanon Qround String List Lia Permutation Sorted.
From stdpp Require Import base numbers list sets strings.

Open Scope Z_scope.

Set Warnings "-clear-no-such-hyp".

(** ** Exceptions and outcomes *)

Inductive exn : Type :=
  | InvalidExplorationError
  | IncompatibilityError
  | ValueError
  | TypeError
  | ZeroDivisionError
  | FileNotFoundError
  | UnpicklingError.

Inductive outcome (A : Type) : Type :=
  | Return (a : A)
  | Raise (e : exn).
Arguments Return {A} a.
Arguments Raise {A} e.

Definition obind {A B} (m : outcome A) (f : A -> outcome B) : outcome B :=
  match m with
  | Return a => f a
  | Raise e => Raise e
  end.

Definition returns {A} (m : outcome A) : bool :=
  match m with Return _ => true | Raise _ => false end.

(** ** Numbers: [Union[int, float]] *)

Inductive num : Type :=
  | PyInt (z : Z)
  | PyFloat (q : Qc).

(** [float * int], the int converted to a float first.  The product is the
    exact one: it agrees with the double the code computes wherever that
    double lies on the same side of every integer, which [int] then
    truncates alike. *)
Definition float_mul_int (q : Qc) (n : Z) : Qc := (q * Qc_of_Z n)%Qc.

(** [int(x)] on a float: truncation towards zero. *)
Definition int_of_float (q : Qc) : Z := Z.quot (Qnum (this q)) (Zpos (Qden (this q))).

(** Truthiness of a number: [0] and [0.0] are falsy. *)
Definition truthy (v : num) : bool :=
  match v with
  | PyInt z => negb (z =? 0)
  | PyFloat q => negb (Qnum (this q) =? 0)
  end.

(** [v <= 0] as the setters test it. *)
Definition num_nonpos (v : num) : bool :=
  match v with
  | PyInt z => z <=? 0
  | PyFloat q => Qnum (this q) <=? 0
  end.

(** [a < b] and [a <= b] on floats. *)
Definition float_ltb (a b : Qc) : bool := bool_decide (a < b)%Qc.
Definition float_leb (a b : Qc) : bool := bool_decide (a <= b)%Qc.

(** [sum(xs)] over floats: left to right from [0], each addition exact. *)
Definition sum (xs : list Qc) : Qc := foldl Qcplus (Qc_of_Z 0) xs.

(** [x / n] for a float (or the int [0] that [sum] starts from) and an int. *)
Definition div_int (x : Qc) (n : Z) : outcome Qc :=
  if n =? 0 then Raise ZeroDivisionError else Return (x / Qc_of_Z n)%Qc.

(** [x / y] on floats. *)
Definition div_float (x y : Qc) : outcome Qc :=
  if bool_decide (y = Qc_of_Z 0) then Raise ZeroDivisionError else Return (x / y)%Qc.

(** ** Dictionaries *)

Module PyDict.
Section Dict.
Context {V : Type}.

Definition len (d : list (string * V)) : Z := Z.of_nat (length d).

Definition keys (d : list (string * V)) : list string := map fst d.

Definition values (d : list (string * V)) : list V := map snd d.

Fixpoint get (d : list (string * V)) (x : string) : option V :=
match d with
| [] => None
| (y, v) :: d' => if decide (y = x) then Some v else get d' x
end.

Definition contains (d : list (string * V)) (x : string) : bool :=
match get d x with Some _ => true | None => false end.

(** [d[x] = v]: overwrite in place when the key is there, append otherwise. *)
Fixpoint set (d : list (string * V)) (x : string) (v : V) : list (string * V) :=
match d with
| [] => [(x, v)]
| (y, w) :: d' => if decide (y = x) then (y, v) :: d' else (y, w) :: set d' x v
end.

(** [d.update(other)]. *)
Definition update (d other : list (string * V)) : list (string * V) :=
foldl (fun acc kv => set acc kv.1 kv.2) d other.

(** The value the last assignment to [x] in the items [l] leaves. *)
Definition last_value (l : list (string * V)) (x : string) : option V :=
get (reverse l) x.

(** Python's [d1 == d2]: the same keys with the same values, in any order. *)
Definition eqb (veqb : V -> V -> bool) (d1 d2 : list (string * V)) : bool :=
(length d1 =? length d2)%nat &&
forallb (fun kv => match get d2 kv.1 with
                   | Some w => veqb kv.2 w
                   | None => false
                   end) d1.
End Dict.
End PyDict.

(** ** [sorted(items, key=itemgetter(1), reverse=True)] and [heapq.nlargest]

    Both are stable: items with equal scores stay in dictionary order. *)

Fixpoint insert_desc (x : string * Qc) (l : list (string * Qc)) : list (string * Qc) :=
  match l with
  | [] => [x]
  | y :: l' => if float_ltb x.2 y.2 then y :: insert_desc x l' else x :: y :: l'
  end.

Definition sorted_desc (l : list (string * Qc)) : list (string * Qc) :=
  foldr insert_desc [] l.

(** [heapq.nlargest(n, items, key=itemgetter(1))]: the first [n] of the
    descending stable sort, and nothing when [n <= 0]. *)
Definition nlargest (n : Z) (l : list (string * Qc)) : list (string * Qc) :=
  take (Z.to_nat n) (sorted_desc l).

(** ** The Explorer object *)

(** Where a table is written under [<root>/<name>/]. *)
Inductive path : Type :=
  | TopExplored (m epoch : Z)      (* data/top_<m>_explored_iter_<epoch>.csv *)
  | AllExploredFinal               (* data/all_explored_final.csv *)
  | PredsIter (epoch : Z)          (* preds/preds_iter_<epoch>.csv *)
  | StatePkl (epoch : Z)           (* states/epoch_<epoch>.pkl *)
  | External (name : string).      (* a file the caller names *)

Record Explorer : Type := mkExplorer {
  pool : list string;                 (* pool.smis(); len(pool) is its length *)
  needs : list string;                (* acquirer.needs *)
  provides : list string;             (* model.provides *)
  retrain_from_scratch : bool;
  k_ : num;                           (* self.__k *)
  delta : Qc;
  max_explore_ : num;                 (* self.__max_explore *)
  max_epochs : Z;
  write_final : bool;
  write_intermediate : bool;
  save_preds : bool;
  epoch : Z;
  scores : list (string * Qc);
  failures : list (string * unit);    (* Dict[T, None] *)
  new_scores : list (string * Qc);
  updated_model : option bool;
  window_size : nat;                  (* recent_avgs.maxlen *)
  recent_avgs : list Qc;
  top_k_avg : option Qc;
  y_preds : option (list Qc);
  y_vars : option (list Qc);
  scores_csvs : list path
}.

Definition len_pool (self : Explorer) : Z := Z.of_nat (length (pool self)).

(** [Explorer.__len__]. *)
Definition len (self : Explorer) : Z :=
  PyDict.len (scores self) + PyDict.len (failures self).

(** The property [Explorer.k]. *)
Definition k (self : Explorer) : Z :=
  let k := match k_ self with
           | PyFloat q => int_of_float (float_mul_int q (len_pool self))
           | PyInt z => z
           end in
  Z.min k (len_pool self).

(** The setter of [k]: what is stored, or the [ValueError]. *)
Definition k_setter (v : num) : outcome num :=
  if num_nonpos v then Raise ValueError else Return v.

(** The property [Explorer.max_explore]. *)
Definition max_explore (self : Explorer) : Z :=
  match max_explore_ self with
  | PyFloat q => int_of_float (float_mul_int q (len_pool self))
  | PyInt z => z
  end.

(** The setter of [max_explore]. *)
Definition max_explore_setter (v : num) : outcome num :=
  if num_nonpos v then Raise ValueError else Return v.

(** [deque.append] on a deque of capacity [maxlen]. *)
Definition deque_append (maxlen : nat) (q : list Qc) (x : Qc) : list Qc :=
  match maxlen with
  | O => q
  | S _ => if (length q <? maxlen)%nat then q ++ [x] else tail q ++ [x]
  end.

(** The property [Explorer.completed]. *)
Definition completed (self : Explorer) : outcome bool :=
  if max_epochs self <? epoch self then Return true
  else if max_explore self <=? PyDict.len (scores self) then Return true
  else if (length (recent_avgs self) <? window_size self)%nat then Return false
  else
    obind (div_int (sum (recent_avgs self)) (Z.of_nat (length (recent_avgs self))))
      (fun moving_avg =>
         match top_k_avg self with
         | None => Raise TypeError
         | Some avg =>
             obind (div_float (avg - moving_avg)%Qc moving_avg)
               (fun r => Return (float_leb r (delta self)))
         end).

(** The first lines shared by [avg], [top_explored] and [top_preds]:
    [k = k or self.k], the float resolved against the pool, and the clamp
    to the number of scores. *)
Definition resolve_k (self : Explorer) (karg : option num) : Z :=
  let k0 := match karg with
            | Some v => if truthy v then v else PyInt (k self)
            | None => PyInt (k self)
            end in
  let k1 := match k0 with
            | PyFloat q => int_of_float (float_mul_int q (len_pool self))
            | PyInt z => z
            end in
  Z.min k1 (PyDict.len (scores self)).

(** [Explorer.top_explored].  [k / len(self.scores) < 0.8] is the exact
    comparison [5 * k < 4 * len]. *)
Definition top_explored (self : Explorer) (karg : option num)
  : outcome (list (string * Qc)) :=
  let k := resolve_k self karg in
  if PyDict.len (scores self) =? 0 then Raise ZeroDivisionError
  else if 5 * k <? 4 * PyDict.len (scores self)
  then Return (nlargest k (scores self))
  else Return (sorted_desc (scores self)).

(** [Explorer.avg].  In the branch [k == len(self.pool)] the generator yields
    the items themselves, and [sum] fails on the first one. *)
Definition avg (self : Explorer) (karg : option num) : outcome Qc :=
  let k := resolve_k self karg in
  if k =? len_pool self then
    match scores self with
    | [] => div_int (Qc_of_Z 0) k
    | _ :: _ => Raise TypeError
    end
  else
    obind (top_explored self (Some (PyInt k)))
      (fun top => div_int (sum (map snd top)) k).

(** ** [heapq] on a list of [(prediction, identifier)] tuples *)

Module Heapq.
Definition item : Type := Qc * string.

(** Tuple comparison [a < b]: the first components that differ decide. *)
Definition lt (a b : item) : bool :=
  float_ltb a.1 b.1 || (bool_decide (a.1 = b.1) && String.ltb a.2 b.2).

(** The loop of [_siftdown(heap, startpos, pos)], [newitem] in hand. *)
Fixpoint siftdown_loop (fuel : nat) (heap : list item) (newitem : item)
    (startpos pos : nat) : list item :=
  match fuel with
  | O => <[pos := newitem]> heap
  | S fuel' =>
      if (startpos <? pos)%nat then
        let parentpos := ((pos - 1) / 2)%nat in
        match heap !! parentpos with
        | Some parent =>
            if lt newitem parent
            then siftdown_loop fuel' (<[pos := parent]> heap) newitem startpos parentpos
            else <[pos := newitem]> heap
        | None => <[pos := newitem]> heap
        end
      else <[pos := newitem]> heap
  end.

Definition siftdown (heap : list item) (startpos pos : nat) : list item :=
  match heap !! pos with
  | Some newitem => siftdown_loop pos heap newitem startpos pos
  | None => heap
  end.

(** The loop of [_siftup(heap, pos)]: returns the heap and the final [pos]. *)
Fixpoint siftup_loop (fuel : nat) (heap : list item) (pos : nat) : list item * nat :=
  match fuel with
  | O => (heap, pos)
  | S fuel' =>
      let endpos := length heap in
      let childpos := (2 * pos + 1)%nat in
      if (childpos <? endpos)%nat then
        let rightpos := (childpos + 1)%nat in
        let childpos :=
          match heap !! childpos, heap !! rightpos with
          | Some c, Some r => if negb (lt c r) then rightpos else childpos
          | _, _ => childpos
          end in
        match heap !! childpos with
        | Some c => siftup_loop fuel' (<[pos := c]> heap) childpos
        | None => (heap, pos)
        end
      else (heap, pos)
  end.

Definition siftup (heap : list item) (pos : nat) : list item :=
  match heap !! pos with
  | Some newitem =>
      let '(heap', pos') := siftup_loop (length heap) heap pos in
      siftdown (<[pos' := newitem]> heap') pos pos'
  | None => heap
  end.

(** [heapq.heappush(heap, item)]. *)
Definition heappush (heap : list item) (x : item) : list item :=
  siftdown (heap ++ [x]) 0 (length heap).

(** [heapq.heappushpop(heap, item)], the heap it leaves. *)
Definition heappushpop (heap : list item) (x : item) : list item :=
  match heap with
  | top :: rest => if lt top x then siftup (x :: rest) 0 else heap
  | [] => heap
  end.
End Heapq.

(** [Explorer.top_preds]. *)
Definition top_preds (self : Explorer) (karg : option num)
  : outcome (list (string * Qc)) :=
  let k := resolve_k self karg in
  match y_preds self with
  | None => Raise TypeError
  | Some preds =>
      let selected :=
        foldl (fun selected xy =>
                 if Z.of_nat (length selected) <? k
                 then Heapq.heappush selected (xy.2, xy.1)
                 else Heapq.heappushpop selected (xy.2, xy.1))
              [] (zip (pool self) preds) in
      Return (map (fun yx => (yx.2, yx.1)) selected)
  end.

(** ** Attribute assignment *)

Definition set_epoch (self : Explorer) (v : Z) : Explorer :=
  mkExplorer (pool self) (needs self) (provides self) (retrain_from_scratch self)
    (k_ self) (delta self) (max_explore_ self) (max_epochs self) (write_final self)
    (write_intermediate self) (save_preds self) v (scores self) (failures self)
    (new_scores self) (updated_model self) (window_size self) (recent_avgs self)
    (top_k_avg self) (y_preds self) (y_vars self) (scores_csvs self).

Definition set_scores (self : Explorer) (v : list (string * Qc)) : Explorer :=
  mkExplorer (pool self) (needs self) (provides self) (retrain_from_scratch self)
    (k_ self) (delta self) (max_explore_ self) (max_epochs self) (write_final self)
    (write_intermediate self) (save_preds self) (epoch self) v (failures self)
    (new_scores self) (updated_model self) (window_size self) (recent_avgs self)
    (top_k_avg self) (y_preds self) (y_vars self) (scores_csvs self).

Definition set_failures (self : Explorer) (v : list (string * unit)) : Explorer :=
  mkExplorer (pool self) (needs self) (provides self) (retrain_from_scratch self)
    (k_ self) (delta self) (max_explore_ self) (max_epochs self) (write_final self)
    (write_intermediate self) (save_preds self) (epoch self) (scores self) v
    (new_scores self) (updated_model self) (window_size self) (recent_avgs self)
    (top_k_avg self) (y_preds self) (y_vars self) (scores_csvs self).

Definition set_new_scores (self : Explorer) (v : list (string * Qc)) : Explorer :=
  mkExplorer (pool self) (needs self) (provides self) (retrain_from_scratch self)
    (k_ self) (delta self) (max_explore_ self) (max_epochs self) (write_final self)
    (write_intermediate self) (save_preds self) (epoch self) (scores self) (failures self)
    v (updated_model self) (window_size self) (recent_avgs self)
    (top_k_avg self) (y_preds self) (y_vars self) (scores_csvs self).

Definition set_updated_model (self : Explorer) (v : option bool) : Explorer :=
  mkExplorer (pool self) (needs self) (provides self) (retrain_from_scratch self)
    (k_ self) (delta self) (max_explore_ self) (max_epochs self) (write_final self)
    (write_intermediate self) (save_preds self) (epoch self) (scores self) (failures self)
    (new_scores self) v (window_size self) (recent_avgs self)
    (top_k_avg self) (y_preds self) (y_vars self) (scores_csvs self).

Definition set_recent_avgs (self : Explorer) (v : list Qc) : Explorer :=
  mkExplorer (pool self) (needs self) (provides self) (retrain_from_scratch self)
    (k_ self) (delta self) (max_explore_ self) (max_epochs self) (write_final self)
    (write_intermediate self) (save_preds self) (epoch self) (scores self) (failures self)
    (new_scores self) (updated_model self) (window_size self) v
    (top_k_avg self) (y_preds self) (y_vars self) (scores_csvs self).

Definition set_top_k_avg (self : Explorer) (v : option Qc) : Explorer :=
  mkExplorer (pool self) (needs self) (provides self) (retrain_from_scratch self)
    (k_ self) (delta self) (max_explore_ self) (max_epochs self) (write_final self)
    (write_intermediate self) (save_preds self) (epoch self) (scores self) (failures self)
    (new_scores self) (updated_model self) (window_size self) (recent_avgs self)
    v (y_preds self) (y_vars self) (scores_csvs self).

Definition set_preds (self : Explorer) (means vars : option (list Qc)) : Explorer :=
  mkExplorer (pool self) (needs self) (provides self) (retrain_from_scratch self)
    (k_ self) (delta self) (max_explore_ self) (max_epochs self) (write_final self)
    (write_intermediate self) (save_preds self) (epoch self) (scores self) (failures self)
    (new_scores self) (updated_model self) (window_size self) (recent_avgs self)
    (top_k_avg self) means vars (scores_csvs self).

Definition set_scores_csvs (self : Explorer) (v : list path) : Explorer :=
  mkExplorer (pool self) (needs self) (provides self) (retrain_from_scratch self)
    (k_ self) (delta self) (max_explore_ self) (max_epochs self) (write_final self)
    (write_intermediate self) (save_preds self) (epoch self) (scores self) (failures self)
    (new_scores self) (updated_model self) (window_size self) (recent_avgs self)
    (top_k_avg self) (y_preds self) (y_vars self) v.

(** [Explorer._clean_and_update_scores]. *)
Definition clean_and_update_scores (self : Explorer)
    (batch : list (string * option Qc)) : Explorer :=
  foldl (fun self xy =>
           match xy.2 with
           | None => set_failures self (PyDict.set (failures self) xy.1 tt)
           | Some y =>
               let self := set_scores self (PyDict.set (scores self) xy.1 y) in
               set_new_scores self (PyDict.set (new_scores self) xy.1 y)
           end) self batch.

(** ** The disk *)

(** The second column of a score table.  The text layer of [csv] is not
    modelled: every row has its two cells, and the second is the text of a
    float, which [float()] reads back as that float, or a text [float()]
    rejects ([None] is written as the empty text). *)
Inductive cell : Type :=
  | FloatText (y : Qc)
  | OtherText (s : string).

Inductive file : Type :=
  | ScoresCsv (rows : list (string * cell))
  | PredsCsv (rows : list (option string * option Qc * option Qc))
  | Pickle (csvs : list path).

#[global] Instance path_eq_dec : EqDecision path.
Proof. solve_decision. Defined.

Definition write_file (d : path -> option file) (p : path) (f : file)
  : path -> option file :=
  fun p' => if decide (p' = p) then Some f else d p'.

(** [itertools.zip_longest] of three lists. *)
Definition zip_longest3 {A B C} (xs : list A) (ys : list B) (zs : list C)
  : list (option A * option B * option C) :=
  map (fun i => (xs !! i, ys !! i, zs !! i))
      (seq 0 (Nat.max (length xs) (Nat.max (length ys) (length zs)))).

(** ** Collaborators and the world *)

(** The acquirer, the objective and the model, each a total function on the
    collaborators' own state. *)
Record Collaborators (Env : Type) : Type := mkCollaborators {
  (* acquirer.acquire_initial(xs, ...) *)
  acquire_initial : Env -> list string -> list string * Env;
  (* acquirer.acquire_batch(xs, y_means, y_vars, explored, ..., epoch) *)
  acquire_batch : Env -> list string -> option (list Qc) -> option (list Qc) ->
                  list (string * option Qc) -> Z -> list string * Env;
  (* objective.calc(inputs, ...) at the current epoch *)
  objective_calc : Env -> list string -> Z -> list (string * option Qc) * Env;
  (* model.train(xs, ys, retrain, ...) *)
  model_train : Env -> list string -> list Qc -> bool -> Env;
  (* model.apply(x_ids, ..., size, mean_only) *)
  model_apply : Env -> list string -> Z -> bool -> (list Qc * list Qc) * Env
}.
Arguments acquire_initial {Env} _.
Arguments acquire_batch {Env} _.
Arguments objective_calc {Env} _.
Arguments model_train {Env} _.
Arguments model_apply {Env} _.

Record World (Env : Type) : Type := mkWorld {
  self : Explorer;
  env : Env;
  disk : path -> option file
}.
Arguments mkWorld {Env} _ _ _.
Arguments self {Env} _.
Arguments env {Env} _.
Arguments disk {Env} _.

(** A method: it may raise, and it leaves a world either way. *)
Definition M (Env A : Type) : Type := World Env -> outcome A * World Env.

#[global] Instance M_ret {Env} : MRet (M Env) :=
  fun A a w => (Return a, w).

#[global] Instance M_bind {Env} : MBind (M Env) :=
  fun A B f m w =>
    match m w with
    | (Return a, w') => f a w'
    | (Raise e, w') => (Raise e, w')
    end.

Definition raise {Env A} (e : exn) : M Env A := fun w => (Raise e, w).

Definition lift {Env A} (o : outcome A) : M Env A := fun w => (o, w).

Definition get_self {Env} : M Env Explorer := fun w => (Return (self w), w).

Definition put_self {Env} (s : Explorer) : M Env unit :=
  fun w => (Return tt, mkWorld s (env w) (disk w)).

Definition modify_self {Env} (f : Explorer -> Explorer) : M Env unit :=
  fun w => (Return tt, mkWorld (f (self w)) (env w) (disk w)).

(** A call into a collaborator. *)
Definition call {Env A} (f : Env -> A * Env) : M Env A :=
  fun w => let '(a, e) := f (env w) in (Return a, mkWorld (self w) e (disk w)).

Definition open_read {Env} (p : path) : M Env file :=
  fun w => match disk w p with
           | Some f => (Return f, w)
           | None => (Raise FileNotFoundError, w)
           end.

Definition open_write {Env} (p : path) (f : file) : M Env unit :=
  fun w => (Return tt, mkWorld (self w) (env w) (write_file (disk w) p f)).

Definition when {Env} (b : bool) (m : M Env unit) : M Env unit :=
  if b then m else mret tt.

(** ** The methods that touch the world *)

(** [xs, ys = zip] of the unpacked items: the assignment fails on an empty dict. *)
Definition unzip_items (d : list (string * Qc)) : outcome (list string * list Qc) :=
  match d with
  | [] => Raise ValueError
  | _ :: _ => Return (map fst d, map snd d)
  end.

(** A table as [csv.reader] yields it after the header: identifier, score text. *)
Definition rows_of (f : file) : outcome (list (string * cell)) :=
  match f with
  | ScoresCsv rows => Return rows
  | PredsCsv rows =>
      Return (map (fun r => (default EmptyString r.1.1,
                             match r.1.2 with
                             | Some y => FloatText y
                             | None => OtherText EmptyString
                             end)) rows)
  | Pickle _ => Raise ValueError
  end.

(** The loop of [_read_scores] over the rows. *)
Definition read_rows (rows : list (string * cell))
  : list (string * Qc) * list (string * unit) :=
  foldl (fun sf row =>
           match row.2 with
           | FloatText y => (PyDict.set sf.1 row.1 y, sf.2)
           | OtherText _ => (sf.1, PyDict.set sf.2 row.1 tt)
           end) ([], []) rows.

(** The [explored] argument: the scores merged with the failures in one dict. *)
Definition explored (s : Explorer) : list (string * option Qc) :=
  PyDict.update (map (fun xy => (xy.1, Some xy.2)) (scores s))
                (map (fun xn => (xn.1, None)) (failures s)).

Section Methods.
Context {Env : Type} (C : Collaborators Env).

(** [Explorer._read_scores]. *)
Definition read_scores (p : path)
  : M Env (list (string * Qc) * list (string * unit)) :=
  f ← open_read p;
  rows ← lift (rows_of f);
  mret (read_rows rows).

(** [Explorer.write_preds].  The file is opened and its header written
    before [zip_longest] looks at the predictions, so the [TypeError] on a
    missing list leaves a table with no row behind. *)
Definition write_preds : M Env unit :=
  s ← get_self;
  match y_preds s, y_vars s with
  | Some means, Some vars =>
      open_write (PredsIter (epoch s))
                 (PredsCsv (zip_longest3 (pool s) means vars))
  | _, _ =>
      open_write (PredsIter (epoch s)) (PredsCsv []);;
      raise TypeError
  end.

(** [Explorer._update_model]. *)
Definition update_model : M Env unit :=
  s ← get_self;
  if PyDict.len (new_scores s) =? 0
  then put_self (set_updated_model s (Some false))
  else
    data ← lift (if retrain_from_scratch s
                 then unzip_items (scores s)
                 else unzip_items (new_scores s));
    call (fun e => (tt, model_train C e data.1 data.2 (retrain_from_scratch s)));;
    modify_self (fun s => set_updated_model (set_new_scores s []) (Some true)).

(** [Explorer._update_predictions]. *)
Definition update_predictions : M Env unit :=
  s ← get_self;
  if negb (default false (updated_model s))
     && match y_preds s with Some (_ :: _) => true | _ => false end
  then mret tt
  else
    preds ← call (fun e => model_apply C e (pool s) (len_pool s)
                             (negb (bool_decide ("vars"%string ∈ needs s))));
    modify_self (fun s => set_updated_model
                            (set_preds s (Some preds.1) (Some preds.2)) (Some false));;
    when (save_preds s) write_preds.

(** [Explorer.write_scores]. *)
Definition write_scores (m : num) (final include_failed : bool) : M Env unit :=
  s ← get_self;
  let m := match m with
           | PyFloat q => int_of_float (float_mul_int q (len s))
           | PyInt z => z
           end in
  let m := Z.min m (len s) in
  let m := if final then len s else m in
  let p_scores := if final then AllExploredFinal else TopExplored m (epoch s) in
  let include_failed := if final then true else include_failed in
  put_self (set_scores_csvs s (scores_csvs s ++ [p_scores]));;
  top_m ← lift (top_explored s (Some (PyInt m)));
  open_write p_scores
    (ScoresCsv (map (fun xy => (xy.1, FloatText xy.2)) top_m
                ++ if include_failed
                   then map (fun xn => (xn.1, OtherText EmptyString)) (failures s)
                   else [])).

(** The lines both rounds run once the batch is scored: merge, recompute
    the top-k average, feed the window, write, advance the epoch, and
    return the batch average. *)
Definition finish_round (batch : list (string * option Qc)) : M Env Qc :=
  modify_self (fun s => clean_and_update_scores s batch);;
  s ← get_self;
  a ← lift (avg s None);
  put_self (set_top_k_avg s (Some a));;
  s ← get_self;
  when (k s <=? PyDict.len (scores s))
       (put_self (set_recent_avgs s (deque_append (window_size s) (recent_avgs s) a)));;
  s ← get_self;
  when (write_intermediate s) (write_scores (PyFloat (Qc_of_Z 1)) false true);;
  modify_self (fun s => set_epoch s (epoch s + 1));;
  let valid_scores := omap snd batch in
  lift (div_int (sum valid_scores) (Z.of_nat (length valid_scores))).

(** [Explorer.explore_initial]. *)
Definition explore_initial : M Env Qc :=
  s ← get_self;
  inputs ← call (fun e => acquire_initial C e (pool s));
  batch ← call (fun e => objective_calc C e inputs (epoch s));
  finish_round batch.

(** [Explorer.explore_batch]; it returns [self.top_k_avg], possibly [None],
    when the pool is exhausted. *)
Definition explore_batch : M Env (option Qc) :=
  s ← get_self;
  if epoch s =? 0 then raise InvalidExplorationError
  else if len_pool s <=? PyDict.len (scores s) then
    put_self (set_epoch s (epoch s + 1));;
    mret (top_k_avg s)
  else
    update_model;;
    update_predictions;;
    s ← get_self;
    inputs ← call (fun e => acquire_batch C e (pool s) (y_preds s) (y_vars s)
                              (explored s) (epoch s));
    batch ← call (fun e => objective_calc C e inputs (epoch s));
    a ← finish_round batch;
    mret (Some a).

(** [Explorer.load_scores]. *)
Definition load_scores (previous_scores : path) : M Env unit :=
  sf ← read_scores previous_scores;
  modify_self (fun s => set_scores s (PyDict.update (scores s) sf.1));;
  modify_self (fun s => set_failures s (PyDict.update (failures s) sf.2));;
  s ← get_self;
  when (epoch s =? 0) (put_self (set_epoch s 1)).

(** [Explorer.save]: the list of tables written so far, pickled. *)
Definition save : M Env path :=
  s ← get_self;
  let p_state := StatePkl (epoch s) in
  open_write p_state (Pickle (scores_csvs s));;
  mret p_state.

(** One iteration of the loop of [Explorer.load]. *)
Definition load_step (scores_csv : path) : M Env unit :=
  sf ← read_scores scores_csv;
  modify_self (fun s => set_failures s sf.2);;
  modify_self (fun s =>
    set_new_scores s (filter (fun xy => negb (PyDict.contains (scores s) xy.1)) sf.1));;
  s ← get_self;
  when (negb (retrain_from_scratch s)) update_model;;
  modify_self (fun s => set_scores s sf.1);;
  modify_self (fun s => set_epoch s (epoch s + 1));;
  s ← get_self;
  a ← lift (avg s None);
  put_self (set_top_k_avg s (Some a));;
  s ← get_self;
  when (k s <=? PyDict.len (scores s))
       (put_self (set_recent_avgs s (deque_append (window_size s) (recent_avgs s) a))).

Fixpoint load_loop (csvs : list path) : M Env unit :=
  match csvs with
  | [] => mret tt
  | scores_csv :: rest => load_step scores_csv;; load_loop rest
  end.

(** [Explorer.load]. *)
Definition load : M Env unit :=
  s ← get_self;
  load_loop (scores_csvs s).

(** The [while not self.completed] loop of [run]; [false] when the fuel
    ran out before a stopping condition held. *)
Fixpoint run_loop (fuel : nat) : M Env bool :=
  match fuel with
  | O => mret false
  | S fuel' =>
      s ← get_self;
      done ← lift (completed s);
      if (done : bool) then mret true
      else explore_batch;; run_loop fuel'
  end.

(** The first statement of [run]: the initial round on a new explorer, a
    batch round on one that was loaded. *)
Definition first_round : M Env unit :=
  s ← get_self;
  if epoch s =? 0 then explore_initial;; mret tt else explore_batch;; mret tt.

(** [Explorer.run], with the report it prints reduced to the values it
    formats. *)
Definition run (fuel : nat) : M Env bool :=
  first_round;;
  done ← run_loop fuel;
  if (done : bool) then
    s ← get_self;
    match top_k_avg s with
    | None => raise TypeError
    | Some _ =>
        lift (avg s (Some (PyFloat (Q2Qc (1 # 10000)))));;
        lift (avg s (Some (PyFloat (Q2Qc (5 # 10000)))));;
        lift (avg s (Some (PyFloat (Q2Qc (1 # 1000)))));;
        lift (avg s (Some (PyFloat (Q2Qc (5 # 1000)))));;
        when (write_final s) (write_scores (PyFloat (Qc_of_Z 1)) true false);;
        mret true
    end
  else mret false.

(** The worlds a run passes through: [Run w0 trace w] when, started in
    [w0], the rounds so far each returned, leaving the worlds of [trace]
    in order, the last of them [w].  The loop's test [completed] only
    decides where a run stops, so every run is a [Run]. *)
Inductive Run (w0 : World Env) : list (World Env) -> World Env -> Prop :=
  | Run_first w1 :
      first_round w0 = (Return tt, w1) ->
      Run w0 [w1] w1
  | Run_batch trace w a w' :
      Run w0 trace w ->
      explore_batch w = (Return a, w') ->
      Run w0 (trace ++ [w']) w'.
End Methods.

(** ** Construction *)

(** The [scores_csvs] argument: a pickle's path, a list, or [None]. *)
Inductive csvs_arg : Type :=
  | CsvsPickle (p : path)
  | CsvsList (l : list path)
  | CsvsNone.

Record Args : Type := mkArgs {
  arg_k : num;
  arg_window_size : nat;
  arg_delta : Qc;
  arg_max_epochs : Z;
  arg_max_explore : num;
  arg_write_final : bool;
  arg_write_intermediate : bool;
  arg_save_preds : bool;
  arg_retrain_from_scratch : bool;
  arg_previous_scores : option path;
  arg_scores_csvs : csvs_arg
}.

(** The defaults of [Explorer.__init__]. *)
Definition default_args : Args :=
  mkArgs (PyFloat (Q2Qc (1 # 100))) 3 (Q2Qc (1 # 100)) 50 (PyFloat (Qc_of_Z 1))
         true false false false None CsvsNone.

(** [Explorer._validate_acquirer]: [needs > provides] on sets. *)
Definition validate_acquirer (needs provides : list string) : outcome unit :=
  if forallb (fun x => bool_decide (x ∈ needs)) provides
     && negb (forallb (fun x => bool_decide (x ∈ provides)) needs)
  then Raise IncompatibilityError
  else Return tt.

(** [Explorer.__init__] up to the stateful attributes, for a pool, an
    acquirer and a model already built. *)
Definition construct (pool needs provides : list string) (a : Args)
  : outcome Explorer :=
  obind (validate_acquirer needs provides) (fun _ =>
  obind (k_setter (arg_k a)) (fun k =>
  obind (max_explore_setter (arg_max_explore a)) (fun max_explore =>
  Return (mkExplorer pool needs provides (arg_retrain_from_scratch a) k
            (arg_delta a) max_explore (arg_max_epochs a) (arg_write_final a)
            (arg_write_intermediate a) (arg_save_preds a)
            0 [] [] [] None (arg_window_size a) [] None None None [])))).

Section Init.
Context {Env : Type} (C : Collaborators Env).

(** The end of [Explorer.__init__]: [self.scores_csvs], then the loading. *)
Definition init_load (a : Args) : M Env unit :=
  csvs ← match arg_scores_csvs a with
         | CsvsPickle p =>
             f ← open_read p;
             match f with
             | Pickle csvs => mret csvs
             | _ => raise UnpicklingError
             end
         | CsvsList l => mret l
         | CsvsNone => mret []
         end;
  modify_self (fun s => set_scores_csvs s csvs);;
  match arg_previous_scores a with
  | Some previous_scores => load_scores previous_scores
  | None =>
      match arg_scores_csvs a with
      | CsvsPickle _ | CsvsList (_ :: _) => load C
      | _ => mret tt
      end
  end.

(** [Explorer(...)]: the new object in its world, or the exception. *)
Definition init (pool needs provides : list string) (a : Args)
    (e : Env) (d : path -> option file) : outcome (World Env) :=
  obind (construct pool needs provides a) (fun s =>
    match init_load a (mkWorld s e d) with
    | (Return _, w) => Return w
    | (Raise x, _) => Raise x
    end).
End Init.

(** ** Concrete explorers

    The scenario of the specification: a pool of five inputs and the scores
    [A:5, B:3, C:9, D:1, E:7]. *)

Definition pool5 : list string := ["A"; "B"; "C"; "D"; "E"]%string.

Definition scores5 : list (string * Qc) :=
  [("A", Qc_of_Z 5); ("B", Qc_of_Z 3); ("C", Qc_of_Z 9); ("D", Qc_of_Z 1);
   ("E", Qc_of_Z 7)]%string.

(** An explorer over [pool] as [construct] leaves it for [k] and
    [max_explore], with the given scores already merged and one round done. *)
Definition explorer_with (pool : list string) (k max_explore : num)
    (scores : list (string * Qc)) : Explorer :=
  mkExplorer pool [] [] false k (Q2Qc (1 # 100)) max_explore 50 true false false
             1 scores [] [] None 3 [] None None None [].

Definition explorer5 : Explorer :=
  explorer_with pool5 (PyInt 2) (PyFloat (Qc_of_Z 1)) scores5.

(** Nothing scored yet. *)
Definition explorer_empty : Explorer :=
  explorer_with pool5 (PyInt 2) (PyFloat (Qc_of_Z 1)) [].

(** The whole pool of two scored. *)
Definition explorer_full : Explorer :=
  explorer_with ["A"; "B"]%string (PyInt 2) (PyFloat (Qc_of_Z 1))
                [("A", Qc_of_Z 1); ("B", Qc_of_Z 2)]%string.

(** [max_explore=10] over the pool of five. *)
Definition args_explore10 : Args :=
  mkArgs (PyInt 2) 3 (Q2Qc (1 # 100)) 50 (PyInt 10) true false false false None CsvsNone.

(** [max_explore=2.0] over the pool of five. *)
Definition args_explore_twice : Args :=
  mkArgs (PyInt 2) 3 (Q2Qc (1 # 100)) 50 (PyFloat (Qc_of_Z 2)) true false false false
         None CsvsNone.

(** The arithmetic mean of a list of floats, [None] for the empty list. *)
Definition mean (xs : list Qc) : option Qc :=
  match xs with
  | [] => None
  | _ :: _ => Some (sum xs / Qc_of_Z (Z.of_nat (length xs)))%Qc
  end.

(** [batch] as the objective returns it: who succeeded, who failed. *)
Definition succeeded (batch : list (string * option Qc)) : list (string * Qc) :=
  omap (fun xy => match xy.2 with Some y => Some (xy.1, y) | None => None end) batch.

Definition failed (batch : list (string * option Qc)) : list (string * unit) :=
  omap (fun xy => match xy.2 with Some _ => None | None => Some (xy.1, tt) end) batch.

(** Merging the batches of several rounds in order. *)
Definition merge_all (s : Explorer) (batches : list (list (string * option Qc)))
  : Explorer :=
  foldl clean_and_update_scores s batches.

(** A failure, then the same input scored. *)
Definition batches_retry : list (list (string * option Qc)) :=
  [[("A", None)]; [("A", Some (Qc_of_Z 1))]]%string.

(** One success and one failure in a single batch. *)
Definition batches_one_failure : list (list (string * option Qc)) :=
  [[("A", Some (Q2Qc (42 # 10))); ("B", None)]]%string.

Definition explorer_fresh : Explorer :=
  mkExplorer pool5 [] [] false (PyInt 2) (Q2Qc (1 # 100)) (PyFloat (Qc_of_Z 1)) 50
             true false false 0 [] [] [] None 3 [] None None None [].

(** The identifiers a sequence of batches scored, failed on, and evaluated. *)
Definition succeeded_ids (batches : list (list (string * option Qc))) : list string :=
  PyDict.keys (succeeded (concat batches)).

Definition failed_ids (batches : list (list (string * option Qc))) : list string :=
  PyDict.keys (failed (concat batches)).

Definition evaluated_ids (batches : list (list (string * option Qc))) : list string :=
  PyDict.keys (concat batches).

(** A method that never raises [InvalidExplorationError]. *)
Definition never_invalid {Env A} (m : M Env A) : Prop :=
  forall w, (m w).1 <> Raise InvalidExplorationError.

(** [a] may stand before [b] in a descending table. *)
Definition desc (a b : string * Qc) : Prop := (b.2 <= a.2)%Qc.

(** ** Snapshots *)

(** The table [write_scores] writes for the scores [S] in the order given,
    then the failures [F]. *)
Definition snapshot_table (S : list (string * Qc)) (F : list (string * unit)) : file :=
  ScoresCsv (map (fun xy => (xy.1, FloatText xy.2)) S
             ++ map (fun xn => (xn.1, OtherText EmptyString)) F).

(** [self.top_k_avg = avg] and the conditional append to the window. *)
Definition feed_window (s : Explorer) (a : Qc) : Explorer :=
  let s := set_top_k_avg s (Some a) in
  if k s <=? PyDict.len (scores s)
  then set_recent_avgs s (deque_append (window_size s) (recent_avgs s) a)
  else s.

(** The value a round returns: the mean of the batch's valid scores. *)
Definition batch_average (batch : list (string * option Qc)) : outcome Qc :=
  let valid_scores := omap snd batch in
  div_int (sum valid_scores) (Z.of_nat (length valid_scores)).

(** What the rounds keep or advance but never rewrite behind the caller's
    back: the configuration, the epoch, the two maps, the list of tables. *)
Definition books (s : Explorer)
  : list string * num * bool * bool * Z * list (string * Qc)
    * list (string * unit) * list path :=
  (pool s, k_ s, retrain_from_scratch s, write_intermediate s, epoch s,
   scores s, failures s, scores_csvs s).

(** [==] on the two maps. *)
Definition scores_eqb (d1 d2 : list (string * Qc)) : bool :=
  PyDict.eqb (fun a b => bool_decide (a = b)) d1 d2.

Definition failures_eqb (d1 d2 : list (string * unit)) : bool :=
  PyDict.eqb (fun _ _ => true) d1 d2.

(** The arguments of the explorer that replays the first [n] tables of
    [csvs]: those of the run, with [scores_csvs] given. *)
Definition replay_args (a : Args) (csvs : list path) (n : nat) : Args :=
  mkArgs (arg_k a) (arg_window_size a) (arg_delta a) (arg_max_epochs a)
         (arg_max_explore a) (arg_write_final a) (arg_write_intermediate a)
         (arg_save_preds a) (arg_retrain_from_scratch a) None
         (CsvsList (take n csvs)).

(** The scores [S] would give the explorer [s] a top-k average. *)
Definition avg_ok (s : Explorer) (S : list (string * Qc)) : Prop :=
  returns (avg (set_scores s S) None) = true.

(** The table at position [i] of [w]'s list is the snapshot of [wi]: its
    scores in descending order, then its failures, written at epoch [i]. *)
Definition snapshot_of {Env} (wi w : World Env) (i : nat) : Prop :=
  exists m,
    scores_csvs (self w) !! i = Some (TopExplored m (Z.of_nat i))
    /\ disk w (TopExplored m (Z.of_nat i))
       = Some (snapshot_table (sorted_desc (scores (self wi))) (failures (self wi))).

(** The state of a world a round left at boundary [i + 1]. *)
Definition boundary_ok {Env} (s0 : Explorer) (wi : World Env) (i : nat) : Prop :=
  NoDup (PyDict.keys (scores (self wi)))
  /\ NoDup (PyDict.keys (failures (self wi)))
  /\ avg_ok s0 (scores (self wi))
  /\ epoch (self wi) = Z.of_nat (S i).

(** What holds of a run configured as [s0] after the rounds of [trace]. *)
Record run_inv {Env} (s0 : Explorer) (trace : list (World Env)) (w : World Env)
  : Prop := mk_run_inv {
  inv_pool : pool (self w) = pool s0;
  inv_k : k_ (self w) = k_ s0;
  inv_write : write_intermediate (self w) = true;
  inv_epoch : epoch (self w) = Z.of_nat (length trace);
  inv_scores : NoDup (PyDict.keys (scores (self w)));
  inv_failures : NoDup (PyDict.keys (failures (self w)));
  inv_tables : (length (scores_csvs (self w)) <= length trace)%nat;
  inv_exhausted :
    (length (scores_csvs (self w)) < length trace)%nat ->
    len_pool (self w) <= PyDict.len (scores (self w));
  inv_snapshots :
    forall i wi, (i < length (scores_csvs (self w)))%nat ->
                 trace !! i = Some wi ->
                 snapshot_of wi w i /\ boundary_ok s0 wi i
}.

(** ** A small run

    Collaborators that take the pool in order, two inputs a round, score
    them from the table of the scenario and fail on [D]. *)

Definition demo_objective (x : string) : option Qc :=
  if decide (x = "D"%string) then None else PyDict.get scores5 x.

Definition demo : Collaborators unit :=
  mkCollaborators unit
    (fun e xs => (take 2 xs, e))
    (fun e xs _ _ explored _ =>
       (take 2 (List.filter (fun x => negb (PyDict.contains explored x)) xs), e))
    (fun e inputs _ => (map (fun x => (x, demo_objective x)) inputs, e))
    (fun e _ _ _ => e)
    (fun e xs _ _ => ((map (fun _ => Qc_of_Z 0) xs, []), e)).

(** [Explorer(k=1, write_intermediate=True)]. *)
Definition demo_args : Args :=
  mkArgs (PyInt 1) 3 (Q2Qc (1 # 100)) 50 (PyFloat (Qc_of_Z 1)) true true false false
         None CsvsNone.

Definition empty_disk : path -> option file := fun _ => None.

Definition demo_w0 : World unit :=
  mkWorld (mkExplorer pool5 [] [] false (PyInt 1) (Q2Qc (1 # 100))
             (PyFloat (Qc_of_Z 1)) 50 true true false 0 [] [] [] None 3 [] None
             None None [])
          tt empty_disk.

Definition demo_w1 : World unit := (first_round demo demo_w0).2.
Definition demo_w2 : World unit := (explore_batch demo demo_w1).2.
Definition demo_w3 : World unit := (explore_batch demo demo_w2).2.

(** The same explorer seeded with a table of previous scores. *)
Definition seeded_disk : path -> option file :=
  write_file empty_disk (External "previous.csv")
             (ScoresCsv [("A"%string, FloatText (Qc_of_Z 5))]).

Definition seeded_args : Args :=
  mkArgs (PyInt 1) 3 (Q2Qc (1 # 100)) 50 (PyFloat (Qc_of_Z 1)) true true false false
         (Some (External "previous.csv")) CsvsNone.

Definition seeded_w0 : World unit :=
  mkWorld (mkExplorer pool5 [] [] false (PyInt 1) (Q2Qc (1 # 100))
             (PyFloat (Qc_of_Z 1)) 50 true true false 1
             [("A"%string, Qc_of_Z 5)] [] [] None 3 [] None None None [])
          tt seeded_disk.

Definition seeded_w1 : World unit := (first_round demo seeded_w0).2.

(** ** Relations between worlds *)

(** [w1] is [w] after the model bookkeeping of a batch round: only
    [new_scores], the predictions and the staleness flag may differ, and on
    disk only prediction tables. *)
Definition model_step {Env} (w w1 : World Env) : Prop :=
  (exists ns means vars um,
     self w1 = set_updated_model (set_preds (set_new_scores (self w) ns) means vars) um)
  /\ forall p, (forall e, p <> PredsIter e) -> disk w1 p = disk w p.

(** The world a batch round leaves when the pool is exhausted. *)
Definition exhausted_step {Env} (w : World Env) : World Env :=
  mkWorld (set_epoch (self w) (epoch (self w) + 1)) (env w) (disk w).

(** A batch round's outcome from the outcome of its last lines. *)
Definition some_outcome {Env} (r : outcome Qc * World Env)
  : outcome (option Qc) * World Env :=
  match r with
  | (Return a, w) => (Return (Some a), w)
  | (Raise e, w) => (Raise e, w)
  end.

(** The pool of two with both inputs scored, after one round. *)
Definition full_world : World unit := mkWorld explorer_full tt empty_disk.

(** Collaborators whose objective fails on every input. *)
Definition failing : Collaborators unit :=
  mkCollaborators unit
    (fun e xs => (take 2 xs, e))
    (fun e xs _ _ explored _ =>
       (take 2 (List.filter (fun x => negb (PyDict.contains explored x)) xs), e))
    (fun e inputs _ => (map (fun x => (x, None)) inputs, e))
    (fun e _ _ _ => e)
    (fun e xs _ _ => ((map (fun _ => Qc_of_Z 0) xs, []), e)).

(** The rows of a table whose second cell reads as a float, and the others. *)
Definition float_rows (rows : list (string * cell)) : list (string * Qc) :=
  omap (fun r => match r.2 with FloatText y => Some (r.1, y) | OtherText _ => None end)
       rows.

Definition other_rows (rows : list (string * cell)) : list (string * unit) :=
  omap (fun r => match r.2 with FloatText _ => None | OtherText _ => Some (r.1, tt) end)
       rows.

(** [a] with its [scores_csvs] argument replaced. *)
Definition with_scores_csvs (a : Args) (c : csvs_arg) : Args :=
  mkArgs (arg_k a) (arg_window_size a) (arg_delta a) (arg_max_epochs a)
         (arg_max_explore a) (arg_write_final a) (arg_write_intermediate a)
         (arg_save_preds a) (arg_retrain_from_scratch a) (arg_previous_scores a) c.

(** A new explorer about to replay the tables the run of [demo] wrote. *)
Definition replay_world : World unit :=
  mkWorld (set_scores_csvs (self demo_w0) (scores_csvs (self demo_w3))) tt
          (disk demo_w3).

(** The run of [demo] with [max_epochs=0]: one round, then the loop stops. *)
Definition short_w0 : World unit :=
  mkWorld (mkExplorer pool5 [] [] false (PyInt 1) (Q2Qc (1 # 100))
             (PyFloat (Qc_of_Z 1)) 0 true true false 0 [] [] [] None 3 [] None
             None None [])
          tt empty_disk.

Definition short_w1 : World unit := (first_round demo short_w0).2.


(** The default [k=0.01] over the pool of five, all five scored. *)
Definition explorer_default_k : Explorer :=
  explorer_with pool5 (PyFloat (Q2Qc (1 # 100))) (PyFloat (Qc_of_Z 1)) scores5.

(** * Properties *)

(** ** Dictionaries *)

Section DictFacts.
Context {V : Type}.
Implicit Types (d l : list (string * V)) (x : string) (v : V).

Lemma get_app d1 d2 x :
  PyDict.get (d1 ++ d2) x =
  match PyDict.get d1 x with Some v => Some v | None => PyDict.get d2 x end.
Proof.
  induction d1 as [|[y w] d1 IH]; simpl; [done|].
  destruct (decide (y = x)); [done|apply IH].
Qed.

Lemma last_value_cons y w l x :
  PyDict.last_value ((y, w) :: l) x =
  match PyDict.last_value l x with
  | Some v => Some v
  | None => if decide (y = x) then Some w else None
  end.
Proof. unfold PyDict.last_value. rewrite reverse_cons, get_app. reflexivity. Qed.

Lemma update_cons_head y w d l :
  PyDict.update ((y, w) :: d) l =
  (y, default w (PyDict.last_value l y))
    :: PyDict.update d (filter (fun kv => kv.1 <> y) l).
Proof.
  revert w d. induction l as [|[x v] l IH]; intros w d.
  - reflexivity.
  - unfold PyDict.update in *. simpl foldl.
    rewrite last_value_cons. destruct (decide (y = x)) as [->|Hne].
    + rewrite IH. rewrite filter_cons_False by (simpl; tauto).
      destruct (decide (x = x)); [|done].
      destruct (PyDict.last_value l x); reflexivity.
    + rewrite IH. rewrite filter_cons_True by (simpl; congruence).
      destruct (decide (x = y)); [congruence|].
      destruct (PyDict.last_value l y); reflexivity.
Qed.

Lemma last_value_filter_ne l x y :
  x <> y -> PyDict.last_value (filter (fun kv => kv.1 <> y) l) x = PyDict.last_value l x.
Proof.
  intros Hne. induction l as [|[z w] l IH]; [done|].
  rewrite last_value_cons. destruct (decide (z = y)) as [->|Hzy].
  - rewrite filter_cons_False by (simpl; tauto). rewrite IH.
    destruct (decide (y = x)); [congruence|]. by destruct (PyDict.last_value l x).
  - rewrite filter_cons_True by (simpl; congruence).
    rewrite last_value_cons, IH. reflexivity.
Qed.

(** Assigning the same items again changes nothing. *)
Lemma update_idempotent d l :
  PyDict.update (PyDict.update d l) l = PyDict.update d l.
Proof.
  revert l. induction d as [|[y w] d IH]; intros l.
  - remember (length l) as n eqn:Hn. revert l Hn.
    induction n as [n IHn] using lt_wf_ind. intros [|[x v] l] Hn; [done|].
    change (PyDict.update [] ((x, v) :: l)) with (PyDict.update [(x, v)] l).
    rewrite update_cons_head.
    change (PyDict.update ((x, default v (PyDict.last_value l x)) :: ?d) ((x, v) :: l))
      with (PyDict.update (PyDict.set ((x, default v (PyDict.last_value l x)) :: d) x v) l).
    simpl PyDict.set. destruct (decide (x = x)); [|done].
    rewrite update_cons_head. f_equal.
    apply (IHn (length (filter (λ kv : string * V, kv.1 ≠ x) l))); [|done].
    simpl in Hn. pose proof (length_filter (λ kv : string * V, kv.1 ≠ x) l). lia.
  - rewrite !update_cons_head. f_equal.
    + by destruct (PyDict.last_value l y).
    + apply IH.
Qed.

Lemma keys_set d x v :
  PyDict.keys (PyDict.set d x v) =
  if bool_decide (x ∈ PyDict.keys d) then PyDict.keys d else PyDict.keys d ++ [x].
Proof.
  unfold PyDict.keys. induction d as [|[y w] d IH]; [done|].
  cbn [PyDict.set map fst]. destruct (decide (y = x)) as [->|Hne]; cbn [map fst].
  - rewrite bool_decide_eq_true_2; [done|]. apply elem_of_cons. by left.
  - rewrite IH. destruct (decide (x ∈ map fst d)) as [Hin|Hnin].
    + rewrite (bool_decide_eq_true_2 _ Hin).
      rewrite bool_decide_eq_true_2; [done|]. apply elem_of_cons. by right.
    + rewrite (bool_decide_eq_false_2 _ Hnin).
      rewrite bool_decide_eq_false_2; [done|].
      rewrite elem_of_cons. intros [->|?]; done.
Qed.

Lemma elem_of_keys_set d x v y :
  y ∈ PyDict.keys (PyDict.set d x v) <-> y ∈ PyDict.keys d \/ y = x.
Proof. rewrite keys_set. case_bool_decide; set_solver. Qed.

Lemma NoDup_keys_set d x v :
  NoDup (PyDict.keys d) -> NoDup (PyDict.keys (PyDict.set d x v)).
Proof.
  intros Hd. rewrite keys_set. case_bool_decide; [done|].
  apply NoDup_app. split; [done|]. split; [set_solver|]. apply NoDup_singleton.
Qed.

Lemma elem_of_keys_update d l y :
  y ∈ PyDict.keys (PyDict.update d l) <-> y ∈ PyDict.keys d \/ y ∈ PyDict.keys l.
Proof.
  revert d. induction l as [|[x v] l IH]; intros d.
  - simpl. set_solver.
  - change (PyDict.update d ((x, v) :: l)) with (PyDict.update (PyDict.set d x v) l).
    rewrite IH, elem_of_keys_set. simpl. set_solver.
Qed.

Lemma NoDup_keys_update d l :
  NoDup (PyDict.keys d) -> NoDup (PyDict.keys (PyDict.update d l)).
Proof.
  revert d. induction l as [|[x v] l IH]; intros d Hd; [done|].
  change (PyDict.update d ((x, v) :: l)) with (PyDict.update (PyDict.set d x v) l).
  by apply IH, NoDup_keys_set.
Qed.

(** A dict built from nothing holds each key assigned once. *)
Lemma length_update_empty l :
  length (PyDict.update [] l) = length (remove_dups (PyDict.keys l)).
Proof.
  rewrite <- (length_map fst (PyDict.update [] l)).
  apply Permutation_length, NoDup_Permutation.
  - apply (NoDup_keys_update [] l), NoDup_nil_2.
  - apply NoDup_remove_dups.
  - intros y. change (map fst (PyDict.update [] l)) with (PyDict.keys (PyDict.update [] l)).
    rewrite elem_of_keys_update, elem_of_remove_dups. set_solver.
Qed.
End DictFacts.

(** ** Merging a batch *)

Lemma succeeded_cons_some x y batch :
  succeeded ((x, Some y) :: batch) = (x, y) :: succeeded batch.
Proof. reflexivity. Qed.

Lemma succeeded_cons_none x batch :
  succeeded ((x, None) :: batch) = succeeded batch.
Proof. reflexivity. Qed.

Lemma failed_cons_some x y batch :
  failed ((x, Some y) :: batch) = failed batch.
Proof. reflexivity. Qed.

Lemma failed_cons_none x batch :
  failed ((x, None) :: batch) = (x, tt) :: failed batch.
Proof. reflexivity. Qed.

(** The loop of [_clean_and_update_scores] is three dictionary updates. *)
Lemma clean_and_update_scores_spec s batch :
  clean_and_update_scores s batch =
  mkExplorer (pool s) (needs s) (provides s) (retrain_from_scratch s)
    (k_ s) (delta s) (max_explore_ s) (max_epochs s) (write_final s)
    (write_intermediate s) (save_preds s) (epoch s)
    (PyDict.update (scores s) (succeeded batch))
    (PyDict.update (failures s) (failed batch))
    (PyDict.update (new_scores s) (succeeded batch))
    (updated_model s) (window_size s) (recent_avgs s)
    (top_k_avg s) (y_preds s) (y_vars s) (scores_csvs s).
Proof.
  revert s. induction batch as [|[x [y|]] batch IH]; intros s.
  - by destruct s.
  - change (clean_and_update_scores s ((x, Some y) :: batch))
      with (clean_and_update_scores
              (set_new_scores (set_scores s (PyDict.set (scores s) x y))
                              (PyDict.set (new_scores s) x y)) batch).
    rewrite IH, succeeded_cons_some, failed_cons_some. reflexivity.
  - change (clean_and_update_scores s ((x, None) :: batch))
      with (clean_and_update_scores
              (set_failures s (PyDict.set (failures s) x tt)) batch).
    rewrite IH, succeeded_cons_none, failed_cons_none. reflexivity.
Qed.

Lemma clean_and_update_scores_app s b1 b2 :
  clean_and_update_scores s (b1 ++ b2) =
  clean_and_update_scores (clean_and_update_scores s b1) b2.
Proof. apply foldl_app. Qed.

Lemma merge_all_concat s batches :
  merge_all s batches = clean_and_update_scores s (concat batches).
Proof.
  revert s. induction batches as [|b batches IH]; intros s; [done|].
  simpl. rewrite clean_and_update_scores_app. apply IH.
Qed.

Lemma scores_merge_all s batches :
  scores (merge_all s batches) =
  PyDict.update (scores s) (succeeded (concat batches)).
Proof. rewrite merge_all_concat, clean_and_update_scores_spec. reflexivity. Qed.

Lemma failures_merge_all s batches :
  failures (merge_all s batches) =
  PyDict.update (failures s) (failed (concat batches)).
Proof. rewrite merge_all_concat, clean_and_update_scores_spec. reflexivity. Qed.

Lemma keys_succeeded_failed batch x :
  x ∈ PyDict.keys batch <->
  x ∈ PyDict.keys (succeeded batch) \/ x ∈ PyDict.keys (failed batch).
Proof.
  induction batch as [|[z [y|]] batch IH].
  - simpl. set_solver.
  - rewrite succeeded_cons_some, failed_cons_some.
    unfold PyDict.keys in *. simpl. rewrite !elem_of_cons, IH. tauto.
  - rewrite succeeded_cons_none, failed_cons_none.
    unfold PyDict.keys in *. simpl. rewrite !elem_of_cons, IH. tauto.
Qed.

(** C5.  Merging the same batch of results a second time leaves the explorer
    exactly as the first merge left it: the score map, the failure map and
    the new-scores map (and every other attribute) are unchanged, for every
    batch and every starting state. *)
Theorem merge_twice_is_merge_once (s : Explorer) (batch : list (string * option Qc)) :
  clean_and_update_scores (clean_and_update_scores s batch) batch =
  clean_and_update_scores s batch.
Proof.
  rewrite (clean_and_update_scores_spec (clean_and_update_scores s batch)).
  rewrite !(clean_and_update_scores_spec s). cbn.
  by rewrite !update_idempotent.
Qed.

(** Starting from empty maps, [len(self)] is the number of distinct
    identifiers that ever scored plus the number that ever failed. *)
Lemma len_counts_scored_plus_failed s batches :
  scores s = [] -> failures s = [] ->
  len (merge_all s batches)
    = Z.of_nat (length (remove_dups (succeeded_ids batches)))
      + Z.of_nat (length (remove_dups (failed_ids batches))).
Proof.
  intros Hs Hf. unfold len, PyDict.len.
  rewrite scores_merge_all, failures_merge_all, Hs, Hf.
  by rewrite !length_update_empty.
Qed.

(** A success does not remove an earlier failure, nor a failure an earlier
    success: an identifier that did both sits in both maps. *)
Lemma retried_input_in_both_maps s batches x :
  x ∈ succeeded_ids batches -> x ∈ failed_ids batches ->
  x ∈ PyDict.keys (scores (merge_all s batches))
  /\ x ∈ PyDict.keys (failures (merge_all s batches)).
Proof.
  intros Hx Hx'. rewrite scores_merge_all, failures_merge_all.
  rewrite !elem_of_keys_update. split; by right.
Qed.

(** C3, as the code has it.  Starting from empty maps, when no identifier
    both failed and scored over the merged batches, [len(self)], the size of
    the score map plus the size of the failure map, is the number of distinct
    identifiers evaluated. *)
Theorem len_counts_evaluated_when_disjoint
    (s : Explorer) (batches : list (list (string * option Qc))) :
  scores s = [] -> failures s = [] ->
  (forall x, x ∈ succeeded_ids batches -> x ∉ failed_ids batches) ->
  len (merge_all s batches)
    = Z.of_nat (length (remove_dups (evaluated_ids batches))).
Proof.
  intros Hs Hf Hdisj.
  rewrite (len_counts_scored_plus_failed s batches Hs Hf).
  rewrite <- Nat2Z.inj_add, <- length_app. f_equal.
  apply Permutation_length, NoDup_Permutation.
  - apply NoDup_app. split; [apply NoDup_remove_dups|].
    split; [|apply NoDup_remove_dups].
    intros x. rewrite !elem_of_remove_dups. apply Hdisj.
  - apply NoDup_remove_dups.
  - intros x. rewrite elem_of_app, !elem_of_remove_dups.
    unfold evaluated_ids, succeeded_ids, failed_ids.
    by rewrite keys_succeeded_failed.
Qed.

(** The scenario of the specification: [A] scores 4.2, [B] fails. *)
Lemma len_counts_evaluated_when_disjoint_witness :
  len (merge_all explorer_fresh batches_one_failure)
    = Z.of_nat (length (remove_dups (evaluated_ids batches_one_failure))).
Proof.
  apply (len_counts_evaluated_when_disjoint explorer_fresh batches_one_failure).
  - reflexivity.
  - reflexivity.
  - intros x Hx Hx'. vm_compute in Hx, Hx'.
    apply list_elem_of_singleton in Hx, Hx'. congruence.
Defined.

(** C3 as stated fails: an input that failed and then scored is counted by
    [len(self)] twice, though one identifier was evaluated. *)
Lemma retry_is_counted_twice :
  len (merge_all explorer_fresh batches_retry) = 2
  /\ Z.of_nat (length (remove_dups (evaluated_ids batches_retry))) = 1.
Proof. split; reflexivity. Qed.

(** ** Sorting the scores *)

Lemma insert_desc_perm x l : insert_desc x l ≡ₚ x :: l.
Proof.
  induction l as [|y l IH]; simpl; [done|].
  destruct (float_ltb x.2 y.2); [|done].
  rewrite IH. apply Permutation_swap.
Qed.

Lemma sorted_desc_perm l : sorted_desc l ≡ₚ l.
Proof.
  induction l as [|x l IH]; simpl; [done|].
  by rewrite insert_desc_perm, IH.
Qed.

Lemma length_sorted_desc l : length (sorted_desc l) = length l.
Proof. apply Permutation_length, sorted_desc_perm. Qed.

Lemma insert_desc_hdrel a x l :
  desc a x -> HdRel desc a l -> HdRel desc a (insert_desc x l).
Proof.
  intros Hax Hal. destruct l as [|y l]; simpl; [by constructor|].
  destruct (float_ltb x.2 y.2); constructor; [|done].
  by inversion Hal.
Qed.

Lemma insert_desc_sorted x l :
  Sorted desc l -> Sorted desc (insert_desc x l).
Proof.
  induction 1 as [|y l Hl IH Hy]; simpl; [by repeat constructor|].
  unfold float_ltb. case_bool_decide as Hlt.
  - constructor; [done|]. apply insert_desc_hdrel; [|done].
    unfold desc. by apply Qclt_le_weak.
  - constructor; [by constructor|]. constructor.
    unfold desc. by apply Qcnot_lt_le.
Qed.

Lemma sorted_desc_sorted l : Sorted desc (sorted_desc l).
Proof.
  induction l as [|x l IH]; simpl; [constructor|]. by apply insert_desc_sorted.
Qed.

Lemma Sorted_take {A} (R : A -> A -> Prop) n (l : list A) :
  Sorted R l -> Sorted R (take n l).
Proof.
  intros Hl. revert n. induction Hl as [|x l Hl IH Hx]; intros [|n]; simpl;
    try constructor; [apply IH|].
  destruct Hx as [|y l' Hxy]; destruct n; simpl; by constructor.
Qed.

(** What [top_explored] returns, whichever branch it takes: a descending
    selection of entries of the score map, no identifier twice. *)
Lemma top_explored_returns s karg top :
  NoDup (PyDict.keys (scores s)) ->
  top_explored s karg = Return top ->
  Sorted desc top
  /\ (forall xy, xy ∈ top -> xy ∈ scores s)
  /\ NoDup (PyDict.keys top).
Proof.
  intros Hnd. unfold top_explored.
  destruct (PyDict.len (scores s) =? 0); [done|].
  assert (Hk : NoDup (PyDict.keys (sorted_desc (scores s)))).
  { unfold PyDict.keys. by rewrite sorted_desc_perm. }
  destruct (5 * resolve_k s karg <? 4 * PyDict.len (scores s));
    intros [= <-]; (split; [|split]).
  - apply Sorted_take, sorted_desc_sorted.
  - intros xy Hxy. rewrite <- (sorted_desc_perm (scores s)).
    by apply (subseteq_take (Z.to_nat (resolve_k s karg))).
  - unfold nlargest, PyDict.keys. rewrite <- (take_drop (Z.to_nat (resolve_k s karg))
      (sorted_desc (scores s))) in Hk. unfold PyDict.keys in Hk.
    rewrite map_app in Hk. by apply NoDup_app in Hk as [? _].
  - apply sorted_desc_sorted.
  - intros xy. by rewrite sorted_desc_perm.
  - done.
Qed.

(** How many pairs: the clamped count when it is under four fifths of the
    score map, the whole map otherwise. *)
Lemma top_explored_length s karg top :
  top_explored s karg = Return top ->
  Z.of_nat (length top) =
    if 5 * resolve_k s karg <? 4 * PyDict.len (scores s)
    then Z.max 0 (resolve_k s karg)
    else PyDict.len (scores s).
Proof.
  unfold top_explored. destruct (PyDict.len (scores s) =? 0) eqn:Hn; [done|].
  apply Z.eqb_neq in Hn.
  destruct (5 * resolve_k s karg <? 4 * PyDict.len (scores s)) eqn:Hlt;
    intros [= <-].
  - apply Z.ltb_lt in Hlt. unfold nlargest.
    rewrite length_take, length_sorted_desc. unfold PyDict.len in *. lia.
  - by rewrite length_sorted_desc.
Qed.

Lemma Qred_nonneg (x : Q) : (0 <= x)%Q -> (0 <= Qred x)%Q.
Proof.
  intros H. apply (Qle_trans _ x); [done|].
  apply Qle_lteq. right. symmetry. apply Qred_correct.
Qed.

(** A non-negative fraction of the pool resolves to the floor of the product. *)
Lemma fraction_resolves_to_floor (q : Qc) (n : Z) :
  (0 <= q)%Qc -> 0 <= n ->
  int_of_float (float_mul_int q n) = Qfloor (this (float_mul_int q n)).
Proof.
  intros Hq Hn.
  assert (H0 : (0 <= this (float_mul_int q n))%Q).
  { unfold float_mul_int, Qcmult, Q2Qc. cbn [this]. apply Qred_nonneg.
    apply Qmult_le_0_compat; [exact Hq|].
    unfold Qle. simpl. lia. }
  unfold int_of_float, Qfloor.
  destruct (this (float_mul_int q n)) as [a b]. unfold Qle in H0. simpl in *.
  rewrite Z.quot_div_nonneg by lia. reflexivity.
Qed.

(** ** The top-k selection and its average *)

(** C4, at the input where the code departs from it.  With five scores and a
    count of 4 (four fifths of the map), [top_explored] takes the full-sort
    branch and returns all five pairs, where min(4, 5) = 4 were asked for. *)
Theorem top_explored_returns_whole_map :
  exists top,
    top_explored explorer5 (Some (PyInt 4)) = Return top
    /\ length top = 5%nat
    /\ Z.min 4 (PyDict.len (scores explorer5)) = 4.
Proof.
  eexists. split; [reflexivity|]. split; reflexivity.
Qed.

Lemma some_float_eq (a b : Qc) : (a == b)%Q -> Some a = Some b.
Proof. intros H. f_equal. by apply Qc_is_canon. Qed.

(** C1, at the inputs where the code departs from it.  When the clamped
    count equals the pool size, [avg] sums the (identifier, score) pairs and
    raises [TypeError], while [top_explored] returns the two scores, whose
    mean is 3/2.  And with a count of 4 over five scores, [avg] divides the
    sum of all five by 4, which is not the mean of what [top_explored]
    returns. *)
Theorem avg_is_not_mean_of_top_explored :
  (avg explorer_full (Some (PyInt 2)) = Raise TypeError
   /\ exists top,
        top_explored explorer_full (Some (PyInt 2)) = Return top
        /\ mean (map snd top) = Some (Q2Qc (3 # 2)))
  /\ exists top a,
       top_explored explorer5 (Some (PyInt 4)) = Return top
       /\ avg explorer5 (Some (PyInt 4)) = Return a
       /\ mean (map snd top) = Some (Qc_of_Z 5)
       /\ a = Q2Qc (25 # 4).
Proof.
  split.
  - split; [reflexivity|]. eexists. split; reflexivity.
  - do 2 eexists. split; [reflexivity|]. split; [reflexivity|]. split.
    + apply some_float_eq. reflexivity.
    + apply Qc_is_canon. reflexivity.
Qed.

(** X4.  Where [avg] does agree with [top_explored]: a count under four fifths of
    the score map that is not the pool size. *)
Lemma avg_is_mean_under_four_fifths s karg :
  1 <= resolve_k s karg ->
  resolve_k s karg <> len_pool s ->
  5 * resolve_k s karg < 4 * PyDict.len (scores s) ->
  exists top,
    top_explored s karg = Return top
    /\ Z.of_nat (length top) = resolve_k s karg
    /\ Some (avg s karg) = (fun a => Return a) <$> mean (map snd top).
Proof.
  intros H1 Hp H45.
  assert (Hre : resolve_k s (Some (PyInt (resolve_k s karg))) = resolve_k s karg).
  { unfold resolve_k at 1. simpl. destruct (resolve_k s karg =? 0) eqn:E; [lia|].
    simpl. unfold resolve_k in *. lia. }
  assert (Htop : top_explored s (Some (PyInt (resolve_k s karg))) = top_explored s karg).
  { unfold top_explored. by rewrite Hre. }
  destruct (top_explored s karg) as [top|e] eqn:Etop.
  - exists top. split; [done|].
    pose proof (top_explored_length _ _ _ Etop) as Hlen.
    apply Z.ltb_lt in H45 as H45'. rewrite H45' in Hlen.
    split; [lia|]. unfold avg. apply Z.eqb_neq in Hp. rewrite Hp, Htop. simpl.
    unfold mean. destruct top as [|xy top]; [simpl in Hlen; lia|].
    simpl fmap. f_equal. unfold div_int.
    destruct (resolve_k s karg =? 0) eqn:E; [lia|].
    rewrite length_map. change (S (length top)) with (length (xy :: top)).
    by rewrite Hlen, Z.max_r by lia.
  - exfalso. unfold top_explored in Etop.
    destruct (PyDict.len (scores s) =? 0) eqn:E; [lia|].
    by destruct (5 * resolve_k s karg <? 4 * PyDict.len (scores s)).
Qed.

Lemma resolve_k_empty s karg : scores s = [] -> resolve_k s karg <= 0.
Proof. intros Hs. unfold resolve_k. rewrite Hs. unfold PyDict.len. simpl. lia. Qed.

(** C8, as the code has it.  With an empty score map [avg] fails, whatever
    the count, with the [ZeroDivisionError] of an unguarded division: in
    [top_explored]'s [k / len(self.scores)], or in [avg]'s own [/ k] when the
    pool is empty too.  No guard raises anything else first. *)
Theorem avg_on_empty_scores_divides_by_zero (s : Explorer) (karg : option num) :
  scores s = [] -> avg s karg = Raise ZeroDivisionError.
Proof.
  intros Hs. unfold avg.
  pose proof (resolve_k_empty s karg Hs) as Hk.
  destruct (resolve_k s karg =? len_pool s) eqn:E.
  - rewrite Hs. apply Z.eqb_eq in E. unfold div_int, len_pool in *.
    destruct (resolve_k s karg =? 0) eqn:E0; [done|]. lia.
  - unfold top_explored. by rewrite Hs.
Qed.

Lemma avg_on_empty_scores_divides_by_zero_witness :
  avg explorer_empty None = Raise ZeroDivisionError.
Proof. apply (avg_on_empty_scores_divides_by_zero explorer_empty None). reflexivity. Defined.

(** C8 as stated fails: a count of 0 on an empty score map ends in the
    division's own [ZeroDivisionError]. *)
Lemma avg_zero_count_on_empty_scores :
  avg explorer_empty (Some (PyInt 0)) = Raise ZeroDivisionError.
Proof. reflexivity. Qed.

(** ** The stopping condition *)

(** C6.  While the epoch is within [max_epochs], fewer inputs are scored than
    [max_explore], and the window of recent averages is not full, [completed]
    is [False]: the scores, the top-k average and [delta] are not consulted. *)
Theorem completed_false_until_window_full (s : Explorer) :
  epoch s <= max_epochs s ->
  PyDict.len (scores s) < max_explore s ->
  (length (recent_avgs s) < window_size s)%nat ->
  completed s = Return false.
Proof.
  intros He Hx Hw. unfold completed.
  destruct (max_epochs s <? epoch s) eqn:E1; [lia|].
  destruct (max_explore s <=? PyDict.len (scores s)) eqn:E2; [lia|].
  destruct (length (recent_avgs s) <? window_size s)%nat eqn:E3; [done|].
  apply Nat.ltb_ge in E3. lia.
Qed.

Lemma completed_false_until_window_full_witness :
  completed (explorer_with pool5 (PyInt 2) (PyFloat (Qc_of_Z 1))
               [("A", Qc_of_Z 5); ("B", Qc_of_Z 3)]%string) = Return false.
Proof.
  apply completed_false_until_window_full.
  - vm_compute. discriminate.
  - reflexivity.
  - vm_compute. lia.
Defined.

(** C7, at inputs where the code departs from it.  Both setters accept the
    value, and the property returns it unclamped: [max_explore=10] and
    [max_explore=2.0] over a pool of five both resolve to 10. *)
Theorem max_explore_is_not_clamped :
  (exists s, construct pool5 [] [] args_explore10 = Return s
             /\ max_explore s = 10 /\ len_pool s = 5)
  /\ (exists s, construct pool5 [] [] args_explore_twice = Return s
                /\ max_explore s = 10 /\ len_pool s = 5).
Proof. split; eexists; (split; [reflexivity|]); split; reflexivity. Qed.

(** ** The scenarios of the specification *)

Example top_explored_scenario :
  top_explored explorer5 (Some (PyInt 2))
  = Return [("C", Qc_of_Z 9); ("E", Qc_of_Z 7)]%string.
Proof. reflexivity. Qed.

Example avg_scenario : avg explorer5 (Some (PyInt 2)) = Return (Qc_of_Z 8).
Proof. vm_compute. f_equal. by apply Qc_is_canon. Qed.

Example merge_scenario :
  scores (merge_all explorer_fresh batches_one_failure)
    = [("A", Q2Qc (42 # 10))]%string
  /\ failures (merge_all explorer_fresh batches_one_failure) = [("B", tt)]%string.
Proof. split; reflexivity. Qed.

Example completed_scenario :
  completed (explorer_with pool5 (PyInt 2) (PyInt 3)
               [("A", Qc_of_Z 5); ("B", Qc_of_Z 3); ("C", Qc_of_Z 9)]%string)
  = Return true.
Proof. reflexivity. Qed.

(** ** The order of the rounds *)

Section NeverInvalid.
Context {Env : Type} (C : Collaborators Env).

Lemma never_invalid_ret {A} (a : A) : never_invalid (mret a : M Env A).
Proof. intros w. discriminate. Qed.

Lemma never_invalid_bind {A B} (m : M Env A) (f : A -> M Env B) :
  never_invalid m -> (forall a, never_invalid (f a)) -> never_invalid (m ≫= f).
Proof.
  intros Hm Hf w. unfold mbind, M_bind. specialize (Hm w).
  destruct (m w) as [[a|e] w']; [apply Hf|]. simpl in *. intros [= ->]. by apply Hm.
Qed.

Lemma never_invalid_lift {A} (o : outcome A) :
  o <> Raise InvalidExplorationError -> never_invalid (lift o : M Env A).
Proof. intros Ho w. exact Ho. Qed.

Lemma never_invalid_get_self : never_invalid (get_self : M Env Explorer).
Proof. intros w. discriminate. Qed.

Lemma never_invalid_put_self s : never_invalid (put_self s : M Env unit).
Proof. intros w. discriminate. Qed.

Lemma never_invalid_modify_self f : never_invalid (modify_self f : M Env unit).
Proof. intros w. discriminate. Qed.

Lemma never_invalid_call {A} (f : Env -> A * Env) : never_invalid (call f).
Proof. intros w. unfold call. destruct (f (env w)). discriminate. Qed.

Lemma never_invalid_open_read p : never_invalid (open_read p : M Env file).
Proof. intros w. unfold open_read. destruct (disk w p); discriminate. Qed.

Lemma never_invalid_open_write p f : never_invalid (open_write p f : M Env unit).
Proof. intros w. discriminate. Qed.

Lemma never_invalid_raise {A} e :
  e <> InvalidExplorationError -> never_invalid (raise e : M Env A).
Proof. intros He w [= ?]. done. Qed.

Lemma never_invalid_when b (m : M Env unit) :
  never_invalid m -> never_invalid (when b m).
Proof. destruct b; [done|]. intros _. apply never_invalid_ret. Qed.

Lemma div_int_not_invalid x n : div_int x n <> Raise InvalidExplorationError.
Proof. unfold div_int. destruct (n =? 0); discriminate. Qed.

Lemma top_explored_not_invalid s karg :
  top_explored s karg <> Raise InvalidExplorationError.
Proof.
  unfold top_explored. destruct (PyDict.len (scores s) =? 0); [discriminate|].
  destruct (5 * resolve_k s karg <? 4 * PyDict.len (scores s)); discriminate.
Qed.

Lemma avg_not_invalid s karg : avg s karg <> Raise InvalidExplorationError.
Proof.
  unfold avg. destruct (resolve_k s karg =? len_pool s).
  - destruct (scores s); [apply div_int_not_invalid|discriminate].
  - pose proof (top_explored_not_invalid s (Some (PyInt (resolve_k s karg)))).
    destruct (top_explored s _); [apply div_int_not_invalid|].
    simpl. intros [= ->]. by apply H.
Qed.

Lemma unzip_items_not_invalid d : unzip_items d <> Raise InvalidExplorationError.
Proof. destruct d; discriminate. Qed.

Create HintDb never_invalid.

#[local] Hint Resolve never_invalid_ret never_invalid_lift never_invalid_get_self
  never_invalid_put_self never_invalid_modify_self never_invalid_call
  never_invalid_open_read never_invalid_open_write never_invalid_when
  div_int_not_invalid top_explored_not_invalid avg_not_invalid
  unzip_items_not_invalid : never_invalid.

Ltac never_invalid_step :=
  lazymatch goal with
  | |- never_invalid (mbind _ _) => apply never_invalid_bind; [|intros ?]
  | |- never_invalid (raise _) => apply never_invalid_raise; discriminate
  | |- never_invalid (when _ _) => apply never_invalid_when
  | |- never_invalid (if ?b then _ else _) => destruct b
  | |- never_invalid (lift (if ?b then _ else _)) => destruct b
  | |- _ => solve [auto with never_invalid]
  end.

Lemma never_invalid_write_preds : never_invalid (write_preds : M Env unit).
Proof.
  unfold write_preds. never_invalid_step; [never_invalid_step|].
  destruct (y_preds a), (y_vars a); repeat never_invalid_step.
Qed.

Lemma never_invalid_update_model : never_invalid (update_model C).
Proof. unfold update_model. repeat never_invalid_step. Qed.

Lemma never_invalid_update_predictions : never_invalid (update_predictions C).
Proof.
  unfold update_predictions. repeat never_invalid_step.
  apply never_invalid_write_preds.
Qed.

Lemma never_invalid_write_scores m final include_failed :
  never_invalid (write_scores m final include_failed : M Env unit).
Proof. unfold write_scores. repeat never_invalid_step. Qed.

Lemma never_invalid_finish_round batch : never_invalid (finish_round batch : M Env Qc).
Proof.
  unfold finish_round. repeat never_invalid_step.
  apply never_invalid_write_scores.
Qed.

#[local] Hint Resolve never_invalid_update_model never_invalid_update_predictions
  never_invalid_finish_round : never_invalid.

Lemma bind_get_self {A} (f : Explorer -> M Env A) (w : World Env) :
  (get_self ≫= f) w = f (self w) w.
Proof. reflexivity. Qed.

(** Past its first test, [explore_batch] has no way to raise the error. *)
Lemma explore_batch_invalid_iff (w : World Env) :
  (explore_batch C w).1 = Raise InvalidExplorationError <-> epoch (self w) = 0.
Proof.
  unfold explore_batch. rewrite bind_get_self.
  destruct (epoch (self w) =? 0) eqn:E.
  - apply Z.eqb_eq in E. done.
  - apply Z.eqb_neq in E. split; [|done]. intros H. exfalso. revert H.
    generalize (self w). intros s.
    lazymatch goal with |- (?m w).1 = _ -> False => cut (never_invalid m) end.
    { intros Hn. apply Hn. }
    repeat never_invalid_step.
Qed.
End NeverInvalid.

(** ** What a round does to the world *)

Lemma int_of_float_one n : int_of_float (float_mul_int (Qc_of_Z 1) n) = n.
Proof.
  unfold int_of_float, float_mul_int, Qcmult, Q2Qc. cbn [this Qc_of_Z].
  replace (inject_Z 1 * inject_Z n)%Q with (inject_Z n).
  2:{ unfold Qmult, inject_Z. simpl. by destruct n. }
  rewrite inject_Z_Qred. simpl. apply Z.quot_1_r.
Qed.

Section Rounds.
Context {Env : Type} (C : Collaborators Env).
Implicit Types (w : World Env) (s : Explorer).

Lemma bind_returns {A B} (m : M Env A) (f : A -> M Env B) w b w' :
  (m ≫= f) w = (Return b, w') ->
  exists a w1, m w = (Return a, w1) /\ f a w1 = (Return b, w').
Proof.
  unfold mbind, M_bind. destruct (m w) as [[a|e] w1]; [|discriminate].
  intros H. by exists a, w1.
Qed.

Lemma when_put_self b s w :
  when b (put_self s) w
  = (Return tt, mkWorld (if b then s else self w) (env w) (disk w)).
Proof. destruct b, w; reflexivity. Qed.

(** [write_scores(include_failed=True)] as the rounds call it. *)
Lemma write_scores_intermediate_spec w :
  write_scores (PyFloat (Qc_of_Z 1)) false true w =
  let s := self w in
  let p := TopExplored (len s) (epoch s) in
  let s' := set_scores_csvs s (scores_csvs s ++ [p]) in
  match top_explored s (Some (PyInt (len s))) with
  | Return top =>
      (Return tt, mkWorld s' (env w)
                    (write_file (disk w) p (snapshot_table top (failures s))))
  | Raise e => (Raise e, mkWorld s' (env w) (disk w))
  end.
Proof.
  unfold write_scores. rewrite bind_get_self.
  rewrite int_of_float_one, Z.min_id.
  cbv zeta. unfold mbind, M_bind, put_self, lift, open_write.
  destruct (top_explored (self w) (Some (PyInt (len (self w))))); reflexivity.
Qed.

Lemma finish_round_spec batch w :
  finish_round batch w =
  let s1 := clean_and_update_scores (self w) batch in
  match avg s1 None with
  | Raise e => (Raise e, mkWorld s1 (env w) (disk w))
  | Return a =>
      let s2 := feed_window s1 a in
      if write_intermediate s2 then
        let p := TopExplored (len s2) (epoch s2) in
        let s3 := set_scores_csvs s2 (scores_csvs s2 ++ [p]) in
        match top_explored s2 (Some (PyInt (len s2))) with
        | Return top =>
            (batch_average batch,
             mkWorld (set_epoch s3 (epoch s3 + 1)) (env w)
                     (write_file (disk w) p (snapshot_table top (failures s2))))
        | Raise e => (Raise e, mkWorld s3 (env w) (disk w))
        end
      else (batch_average batch,
            mkWorld (set_epoch s2 (epoch s2 + 1)) (env w) (disk w))
  end.
Proof.
  unfold finish_round.
  unfold mbind at 1, M_bind at 1, modify_self at 1. cbn [self env disk].
  rewrite bind_get_self. cbn [self env disk].
  unfold mbind at 1, M_bind at 1, lift at 1.
  destruct (avg (clean_and_update_scores (self w) batch) None) as [a|e]; [|reflexivity].
  unfold mbind at 1, M_bind at 1, put_self at 1. cbn [self env disk].
  rewrite bind_get_self. cbn [self env disk].
  unfold mbind at 1, M_bind at 1. cbv zeta. unfold feed_window. cbv zeta.
  set (s2 := set_top_k_avg (clean_and_update_scores (self w) batch) (Some a)).
  rewrite when_put_self. cbn [self env disk].
  set (s3 := if k s2 <=? PyDict.len (scores s2) then _ else s2).
  rewrite bind_get_self. cbn [self env disk].
  unfold mbind at 1, M_bind at 1.
  destruct (write_intermediate s3) eqn:Ewi.
  - unfold when. rewrite write_scores_intermediate_spec. cbn [self env disk]. cbv zeta.
    destruct (top_explored s3 (Some (PyInt (len s3)))) as [top|e]; reflexivity.
  - reflexivity.
Qed.

Lemma books_feed_window s a : books (feed_window s a) = books s.
Proof.
  unfold feed_window. cbv zeta.
  destruct (k (set_top_k_avg s (Some a)) <=? _); reflexivity.
Qed.

Lemma books_clean_and_update_scores s batch :
  books (clean_and_update_scores s batch) =
  (pool s, k_ s, retrain_from_scratch s, write_intermediate s, epoch s,
   PyDict.update (scores s) (succeeded batch),
   PyDict.update (failures s) (failed batch), scores_csvs s).
Proof. by rewrite clean_and_update_scores_spec. Qed.

(** The epoch moves by one whenever [finish_round] gets past the table. *)
Lemma finish_round_epoch batch w a w' :
  finish_round batch w = (Return a, w') ->
  epoch (self w') = epoch (self w) + 1.
Proof.
  rewrite finish_round_spec. cbv zeta.
  assert (He : forall a, epoch (feed_window (clean_and_update_scores (self w) batch) a)
                         = epoch (self w)).
  { intros a0. pose proof (books_feed_window (clean_and_update_scores (self w) batch) a0) as Hb.
    rewrite books_clean_and_update_scores in Hb. by injection Hb. }
  destruct (avg _ None) as [a0|e]; [|discriminate].
  destruct (write_intermediate _).
  - destruct (top_explored _ _); [|discriminate].
    intros [= _ <-]. cbn. by rewrite He.
  - intros [= _ <-]. cbn. by rewrite He.
Qed.
End Rounds.

Section BatchRounds.
Context {Env : Type} (C : Collaborators Env).
Implicit Types (w : World Env) (s : Explorer).

Lemma update_model_frame w :
  books (self (update_model C w).2) = books (self w)
  /\ disk (update_model C w).2 = disk w.
Proof.
  unfold update_model. rewrite bind_get_self.
  destruct (PyDict.len (new_scores (self w)) =? 0); [done|].
  unfold mbind, M_bind, lift, call, modify_self.
  destruct (if retrain_from_scratch (self w) then _ else _); done.
Qed.

(** Training on new scores only cannot fail. *)
Lemma update_model_online_returns w :
  retrain_from_scratch (self w) = false ->
  (update_model C w).1 = Return tt.
Proof.
  intros Hr. unfold update_model. rewrite bind_get_self.
  destruct (PyDict.len (new_scores (self w)) =? 0) eqn:E; [done|].
  rewrite Hr. unfold mbind, M_bind, lift, call, modify_self.
  destruct (new_scores (self w)); [done|]. reflexivity.
Qed.

Lemma update_predictions_frame w :
  books (self (update_predictions C w).2) = books (self w)
  /\ forall p, (forall e, p <> PredsIter e) ->
               disk (update_predictions C w).2 p = disk w p.
Proof.
  unfold update_predictions. rewrite bind_get_self.
  destruct (_ && _); [done|].
  unfold mbind, M_bind, call, modify_self.
  destruct (model_apply C _ _ _ _) as [preds e]. cbn [self env disk].
  unfold when. destruct (save_preds (self w)); [|done].
  unfold write_preds. rewrite bind_get_self. cbn.
  split; [done|]. intros p Hp. unfold write_file.
  destruct (decide (p = PredsIter (epoch (self w)))) as [->|]; [|done].
  by destruct (Hp (epoch (self w))).
Qed.

Lemma explore_initial_spec w :
  explore_initial C w =
  let '(inputs, e1) := acquire_initial C (env w) (pool (self w)) in
  let '(batch, e2) := objective_calc C e1 inputs (epoch (self w)) in
  finish_round batch (mkWorld (self w) e2 (disk w)).
Proof.
  unfold explore_initial. rewrite bind_get_self.
  unfold mbind at 1, M_bind at 1, call at 1.
  destruct (acquire_initial C (env w) (pool (self w))) as [inputs e1].
  unfold mbind at 1, M_bind at 1, call at 1. cbn [self env disk].
  by destruct (objective_calc C e1 inputs (epoch (self w))) as [batch e2].
Qed.

(** A batch round that returns either found the pool exhausted and only
    advanced the epoch, or finished a round on a world with the same books
    and the same tables. *)
Lemma explore_batch_returns w a w' :
  explore_batch C w = (Return a, w') ->
  epoch (self w) <> 0
  /\ ((len_pool (self w) <= PyDict.len (scores (self w))
       /\ w' = mkWorld (set_epoch (self w) (epoch (self w) + 1)) (env w) (disk w))
      \/ (PyDict.len (scores (self w)) < len_pool (self w)
          /\ exists w1 batch a',
               books (self w1) = books (self w)
               /\ (forall p, (forall e, p <> PredsIter e) -> disk w1 p = disk w p)
               /\ finish_round batch w1 = (Return a', w'))).
Proof.
  unfold explore_batch. rewrite bind_get_self.
  destruct (epoch (self w) =? 0) eqn:E0; [discriminate|].
  apply Z.eqb_neq in E0. intros H. split; [done|].
  destruct (len_pool (self w) <=? PyDict.len (scores (self w))) eqn:Ex.
  - left. split; [lia|]. by injection H as <- <-.
  - right. split; [lia|].
    apply bind_returns in H as ([] & wa & Ha & H).
    apply bind_returns in H as ([] & wb & Hb & H).
    rewrite bind_get_self in H.
    apply bind_returns in H as (inputs & wc & Hc & H).
    apply bind_returns in H as (batch & wd & Hd & H).
    apply bind_returns in H as (a' & we & He & H).
    injection H as <- <-.
    destruct (update_model_frame w) as [Hbk1 Hd1]. rewrite Ha in Hbk1, Hd1.
    destruct (update_predictions_frame wa) as [Hbk2 Hd2]. rewrite Hb in Hbk2, Hd2.
    cbn [snd] in *.
    unfold call in Hc, Hd.
    destruct (acquire_batch C _ _ _ _ _ _) as [i1 e1]. injection Hc as <- <-.
    cbn [self env disk] in Hd.
    destruct (objective_calc C _ _ _) as [b1 e2]. injection Hd as <- <-.
    eexists _, _, a'. split; [|split; [|exact He]].
    + cbn [self]. congruence.
    + intros p Hp. cbn [disk]. rewrite Hd2 by done. by rewrite Hd1.
Qed.

Lemma first_round_epoch w w1 :
  0 <= epoch (self w) ->
  first_round C w = (Return tt, w1) ->
  epoch (self w1) = epoch (self w) + 1.
Proof.
  intros H0. unfold first_round. rewrite bind_get_self.
  destruct (epoch (self w) =? 0) eqn:E.
  - intros H. apply bind_returns in H as (a & w2 & H & Hr). injection Hr as <-.
    rewrite explore_initial_spec in H.
    destruct (acquire_initial C _ _) as [inputs e1].
    destruct (objective_calc C _ _ _) as [batch e2].
    by apply finish_round_epoch in H.
  - intros H. apply bind_returns in H as (a & w2 & H & Hr). injection Hr as <-.
    apply explore_batch_returns in H as [_ [[_ ->]|(_ & w3 & batch & a' & Hb & _ & H)]].
    + reflexivity.
    + apply finish_round_epoch in H. rewrite H.
      assert (epoch (self w3) = epoch (self w)) as -> by (by injection Hb). done.
Qed.


Lemma load_scores_epoch p w w1 :
  load_scores p w = (Return tt, w1) -> epoch (self w1) <> 0.
Proof.
  unfold load_scores. intros H.
  apply bind_returns in H as (sf & wa & _ & H).
  apply bind_returns in H as ([] & wb & Hb & H).
  apply bind_returns in H as ([] & wc & Hc & H).
  rewrite bind_get_self in H.
  destruct (epoch (self wc) =? 0) eqn:E.
  - injection H as <-. cbn. lia.
  - injection H as <-. by apply Z.eqb_neq in E.
Qed.
End BatchRounds.


(** ** Replaying the tables of a run *)

Section DictMore.
Context {V : Type}.
Implicit Types (d l : list (string * V)) (x : string) (v : V).

Lemma set_fresh d x v :
  x ∉ PyDict.keys d -> PyDict.set d x v = d ++ [(x, v)].
Proof.
  unfold PyDict.keys. induction d as [|[y w] d IH]; intros Hx; [done|].
  cbn [map fst] in Hx. apply not_elem_of_cons in Hx as [Hne Hx].
  cbn [PyDict.set]. destruct (decide (y = x)); [congruence|].
  by rewrite IH.
Qed.

Lemma update_fresh d l :
  NoDup (PyDict.keys (d ++ l)) -> PyDict.update d l = d ++ l.
Proof.
  revert d. induction l as [|[x v] l IH]; intros d Hnd.
  - by rewrite app_nil_r.
  - change (PyDict.update d ((x, v) :: l)) with (PyDict.update (PyDict.set d x v) l).
    rewrite set_fresh.
    + rewrite IH; rewrite <- app_assoc; done.
    + unfold PyDict.keys in *. rewrite map_app in Hnd.
      apply NoDup_app in Hnd as (_ & Hd & _). intros Hx. apply (Hd x Hx).
      cbn. apply elem_of_cons. by left.
Qed.

Lemma update_empty_NoDup l : NoDup (PyDict.keys l) -> PyDict.update [] l = l.
Proof. intros H. by apply (update_fresh [] l). Qed.

Lemma get_elem_of d x v :
  NoDup (PyDict.keys d) -> (x, v) ∈ d -> PyDict.get d x = Some v.
Proof.
  unfold PyDict.keys. induction d as [|[y w] d IH]; intros Hnd Hin.
  - by apply elem_of_nil in Hin.
  - cbn [map fst] in Hnd. apply NoDup_cons in Hnd as [Hy Hnd].
    cbn [PyDict.get]. apply elem_of_cons in Hin as [[= -> ->]|Hin].
    + by destruct (decide (y = y)).
    + destruct (decide (y = x)) as [->|]; [|by apply IH].
      destruct Hy. apply list_elem_of_fmap. by exists (x, v).
Qed.

(** Two orders of the same items are the same dictionary. *)
Lemma eqb_Permutation (veqb : V -> V -> bool) d1 d2 :
  (forall v, veqb v v = true) ->
  NoDup (PyDict.keys d2) -> d1 ≡ₚ d2 -> PyDict.eqb veqb d1 d2 = true.
Proof.
  intros Hrefl Hnd Hp. unfold PyDict.eqb. apply andb_true_iff. split.
  - apply Nat.eqb_eq. by rewrite Hp.
  - apply forallb_forall. intros [x v] Hin. cbn.
    rewrite (get_elem_of d2 x v); [apply Hrefl|done|].
    rewrite <- Hp. by apply list_elem_of_In.
Qed.
End DictMore.

Lemma read_rows_snapshot_table rows S F :
  snapshot_table S F = ScoresCsv rows ->
  read_rows rows = (PyDict.update [] S, PyDict.update [] F).
Proof.
  intros [= <-]. unfold read_rows. rewrite foldl_app.
  assert (H1 : forall S s0 (f0 : list (string * unit)),
    foldl (fun sf row => match row.2 with
                         | FloatText y => (PyDict.set sf.1 row.1 y, sf.2)
                         | OtherText _ => (sf.1, PyDict.set sf.2 row.1 tt)
                         end) (s0, f0) (map (fun xy : string * Qc => (xy.1, FloatText xy.2)) S)
    = (PyDict.update s0 S, f0)).
  { clear. induction S as [|[x y] S IH]; intros s0 f0; [done|]. cbn. by rewrite IH. }
  rewrite H1. clear H1. generalize (PyDict.update [] S). intros s0.
  generalize (@nil (string * unit)).
  induction F as [|[x []] F IH]; intros f0; [done|]. cbn. by rewrite IH.
Qed.

(** [avg] reads the configured k, the pool and the scores, nothing else. *)
Lemma avg_ext s s' karg :
  k_ s = k_ s' -> pool s = pool s' -> scores s = scores s' ->
  avg s karg = avg s' karg.
Proof.
  intros Hk Hp Hs. unfold avg, top_explored, resolve_k, k, len_pool.
  by rewrite Hk, Hp, Hs.
Qed.

Lemma resolve_k_length s s' karg :
  k_ s = k_ s' -> pool s = pool s' -> length (scores s) = length (scores s') ->
  resolve_k s karg = resolve_k s' karg.
Proof.
  intros Hk Hp Hs. unfold resolve_k, k, len_pool, PyDict.len. by rewrite Hk, Hp, Hs.
Qed.

(** Whether [avg] returns depends on the scores through their number only. *)
Lemma avg_returns_length s s' karg :
  k_ s = k_ s' -> pool s = pool s' -> length (scores s) = length (scores s') ->
  returns (avg s karg) = returns (avg s' karg).
Proof.
  intros Hk Hp Hs. unfold avg, top_explored.
  rewrite <- (resolve_k_length s s' karg Hk Hp Hs).
  rewrite <- (resolve_k_length s s' (Some (PyInt (resolve_k s karg))) Hk Hp Hs).
  unfold len_pool, PyDict.len. rewrite <- Hp, <- Hs.
  destruct (resolve_k s karg =? _).
  - destruct (scores s), (scores s'); try discriminate; reflexivity.
  - destruct (Z.of_nat (length (scores s)) =? 0); [done|].
    destruct (_ <? _); cbn; unfold div_int; by destruct (resolve_k s karg =? 0).
Qed.

Lemma avg_returns_scores s karg :
  returns (avg s karg) = true -> scores s <> [].
Proof.
  intros H Hs. pose proof (resolve_k_empty s karg Hs) as Hk.
  unfold avg, top_explored in H. rewrite Hs in H.
  destruct (resolve_k s karg =? len_pool s) eqn:E; [|discriminate].
  apply Z.eqb_eq in E. unfold div_int, len_pool in *.
  destruct (resolve_k s karg =? 0) eqn:E0; [discriminate|]. lia.
Qed.

(** Asked for as many as were explored, [top_explored] returns the whole
    score map, sorted. *)
Lemma top_explored_all s :
  scores s <> [] ->
  top_explored s (Some (PyInt (len s))) = Return (sorted_desc (scores s)).
Proof.
  intros Hs. unfold top_explored.
  assert (Hn : 0 < PyDict.len (scores s)).
  { unfold PyDict.len. destruct (scores s); [done|]. cbn. lia. }
  assert (Hk : resolve_k s (Some (PyInt (len s))) = PyDict.len (scores s)).
  { assert (Hlen : PyDict.len (scores s) <= len s).
    { unfold len, PyDict.len. lia. }
    unfold resolve_k, truthy. destruct (len s =? 0) eqn:E; [lia|].
    cbn. lia. }
  rewrite Hk. destruct (PyDict.len (scores s) =? 0) eqn:E0; [lia|].
  destruct (5 * PyDict.len (scores s) <? 4 * PyDict.len (scores s)) eqn:E1; [lia|done].
Qed.

Section Replay.
Context {Env : Type} (C : Collaborators Env).
Implicit Types (w : World Env) (s : Explorer).

Lemma bind_eq {A B} (m : M Env A) (f : A -> M Env B) w a w1 :
  m w = (Return a, w1) -> (m ≫= f) w = f a w1.
Proof. intros H. unfold mbind, M_bind. by rewrite H. Qed.

Lemma bind_modify_self {B} (g : Explorer -> Explorer) (f : unit -> M Env B) w :
  (modify_self g ≫= f) w = f tt (mkWorld (g (self w)) (env w) (disk w)).
Proof. reflexivity. Qed.

Lemma bind_put_self {B} s (f : unit -> M Env B) w :
  (put_self s ≫= f) w = f tt (mkWorld s (env w) (disk w)).
Proof. reflexivity. Qed.

(** Reading back a table that [write_scores] wrote. *)
Lemma read_scores_snapshot p w S F :
  disk w p = Some (snapshot_table S F) ->
  NoDup (PyDict.keys S) -> NoDup (PyDict.keys F) ->
  read_scores p w = (Return (S, F), w).
Proof.
  intros Hp HS HF. unfold read_scores.
  unfold mbind, M_bind, open_read, lift. rewrite Hp. cbn.
  rewrite (read_rows_snapshot_table _ S F eq_refl).
  by rewrite !update_empty_NoDup.
Qed.

Lemma load_step_snapshot p w S F :
  disk w p = Some (snapshot_table S F) ->
  NoDup (PyDict.keys S) -> NoDup (PyDict.keys F) ->
  avg_ok (self w) S ->
  exists w',
    load_step C p w = (Return tt, w')
    /\ disk w' = disk w
    /\ books (self w')
       = (pool (self w), k_ (self w), retrain_from_scratch (self w),
          write_intermediate (self w), epoch (self w) + 1, S, F,
          scores_csvs (self w)).
Proof.
  intros Hp HS HF Havg. unfold load_step.
  rewrite (bind_eq _ _ _ _ _ (read_scores_snapshot p w S F Hp HS HF)).
  rewrite !bind_modify_self. cbn [self env disk fst snd].
  rewrite bind_get_self. cbn [self env disk].
  set (s1 := set_new_scores _ _).
  assert (Hb1 : books s1 = (pool (self w), k_ (self w), retrain_from_scratch (self w),
          write_intermediate (self w), epoch (self w), scores (self w), F,
          scores_csvs (self w))) by reflexivity.
  clearbody s1.
  assert (Hum : exists w2, when (negb (retrain_from_scratch s1)) (update_model C)
                             (mkWorld s1 (env w) (disk w)) = (Return tt, w2)
                           /\ books (self w2) = books s1 /\ disk w2 = disk w).
  { destruct (retrain_from_scratch s1) eqn:Er; cbn [negb when].
    - eexists. split; [reflexivity|]. done.
    - pose proof (update_model_online_returns C (mkWorld s1 (env w) (disk w)) Er) as H1.
      destruct (update_model_frame C (mkWorld s1 (env w) (disk w))) as [H2 H3].
      destruct (update_model C (mkWorld s1 (env w) (disk w))) as [o w2].
      cbn in H1, H2, H3. subst o. by exists w2. }
  destruct Hum as (w2 & Hw2 & Hb2 & Hd2).
  rewrite (bind_eq _ _ _ _ _ Hw2).
  rewrite !bind_modify_self. cbn [self env disk].
  rewrite bind_get_self. cbn [self env disk].
  set (s3 := set_epoch _ _).
  assert (Hb3 : books s3 = (pool (self w), k_ (self w), retrain_from_scratch (self w),
          write_intermediate (self w), epoch (self w) + 1, S, F,
          scores_csvs (self w))).
  { rewrite Hb1 in Hb2. unfold books in Hb2. injection Hb2 as ? ? ? ? ? ? ? ?.
    unfold books, s3. cbn. congruence. }
  clearbody s3.
  assert (Ha : exists a, avg s3 None = Return a).
  { unfold avg_ok in Havg.
    rewrite <- (avg_ext s3 (set_scores (self w) S) None) in Havg.
    - destruct (avg s3 None) as [a|]; [by exists a|done].
    - unfold books in Hb3. injection Hb3. intros. done.
    - unfold books in Hb3. injection Hb3. intros. done.
    - unfold books in Hb3. injection Hb3. intros. done. }
  destruct Ha as [a Ha].
  unfold mbind at 1, M_bind at 1, lift at 1. rewrite Ha.
  rewrite bind_put_self. rewrite bind_get_self. cbn [self env disk].
  rewrite when_put_self. cbn [self env disk].
  eexists. split; [reflexivity|]. split; [done|]. cbn [self].
  rewrite <- Hb3. by destruct (_ <=? _).
Qed.

Lemma avg_ok_ext s s' S :
  k_ s = k_ s' -> pool s = pool s' -> avg_ok s S -> avg_ok s' S.
Proof.
  intros Hk Hp. unfold avg_ok.
  by rewrite (avg_ext (set_scores s S) (set_scores s' S) None Hk Hp eq_refl).
Qed.

(** Sorting the scores does not change whether they give an average. *)
Lemma avg_ok_sorted s S : avg_ok s S -> avg_ok s (sorted_desc S).
Proof.
  unfold avg_ok. intros H. rewrite <- H. apply avg_returns_length; try done.
  cbn. apply length_sorted_desc.
Qed.

(** The loop of [load] over tables that are snapshots: it returns, leaves
    the disk alone, counts one epoch per table, and ends on the maps of the
    last table. *)
Lemma load_loop_snapshots paths (snaps : list (list (string * Qc) * list (string * unit))) w :
  Forall2 (fun p SF => disk w p = Some (snapshot_table SF.1 SF.2)
                       /\ NoDup (PyDict.keys SF.1) /\ NoDup (PyDict.keys SF.2)
                       /\ avg_ok (self w) SF.1) paths snaps ->
  exists w',
    load_loop C paths w = (Return tt, w')
    /\ disk w' = disk w
    /\ pool (self w') = pool (self w)
    /\ k_ (self w') = k_ (self w)
    /\ epoch (self w') = epoch (self w) + Z.of_nat (length paths)
    /\ forall SF, last snaps = Some SF ->
                  scores (self w') = SF.1 /\ failures (self w') = SF.2.
Proof.
  intros H. revert snaps w H. induction paths as [|p paths IH]; intros snaps w H.
  - apply Forall2_nil_inv_l in H as ->. exists w. cbn.
    repeat split; try done. lia.
  - apply Forall2_cons_inv_l in H as ([S F] & snaps' & (Hp & HS & HF & Havg) & H & ->).
    cbn [fst snd] in *.
    destruct (load_step_snapshot p w S F Hp HS HF Havg) as (w1 & Hstep & Hd1 & Hb1).
    unfold books in Hb1. injection Hb1 as Hpool Hk _ _ Hep Hsc Hfa _.
    destruct (IH snaps' w1) as (w' & Hloop & Hd' & Hpool' & Hk' & Hep' & Hlast).
    { eapply Forall2_impl; [exact H|]. intros p' SF (? & ? & ? & ?).
      rewrite Hd1. repeat split; try done.
      eapply avg_ok_ext; [| |eassumption]; done. }
    exists w'. cbn [load_loop]. rewrite (bind_eq _ _ _ _ _ Hstep).
    split; [exact Hloop|]. split; [congruence|]. split; [congruence|].
    split; [congruence|]. split; [rewrite Hep', Hep; cbn [length]; lia|].
    intros SF. destruct snaps' as [|SF' snaps'].
    + intros [= <-]. apply Forall2_nil_inv_r in H as ->.
      cbn in Hloop. injection Hloop as <-. done.
    + rewrite last_cons_cons. apply Hlast.
Qed.
Lemma books_eq s s' :
  books s = books s' ->
  pool s = pool s' /\ k_ s = k_ s'
  /\ retrain_from_scratch s = retrain_from_scratch s'
  /\ write_intermediate s = write_intermediate s'
  /\ epoch s = epoch s' /\ scores s = scores s'
  /\ failures s = failures s' /\ scores_csvs s = scores_csvs s'.
Proof. unfold books. intros [= ? ? ? ? ? ? ? ?]. done. Qed.

(** A round that gets through [finish_round] adds its world to the trace and
    its snapshot to the list, and touches no earlier table. *)
Lemma finish_round_inv s0 trace w w1 batch a w' :
  run_inv s0 trace w ->
  books (self w1) = books (self w) ->
  (forall p, (forall e, p <> PredsIter e) -> disk w1 p = disk w p) ->
  length (scores_csvs (self w)) = length trace ->
  finish_round batch w1 = (Return a, w') ->
  run_inv s0 (trace ++ [w']) w'.
Proof.
  intros [Ipool Ik Iwr Iep Isc Ifa Itab Iex Isn] Hb Hdisk Hlen H.
  apply books_eq in Hb as (Hb1 & Hb2 & _ & Hb4 & Hb5 & Hb6 & Hb7 & Hb8).
  rewrite finish_round_spec in H. cbv zeta in H.
  set (s1 := clean_and_update_scores (self w1) batch) in *.
  pose proof (books_clean_and_update_scores (self w1) batch) as Hs1. fold s1 in Hs1.
  destruct (avg s1 None) as [a0|] eqn:Ea; [|discriminate].
  pose proof (books_feed_window s1 a0) as Hs2. rewrite Hs1 in Hs2.
  set (s2 := feed_window s1 a0) in *.
  assert (Hs2' : books s2 = books s1) by (by rewrite Hs1).
  apply books_eq in Hs2' as (Hp2 & Hk2 & _ & Hw2 & He2 & Hsc2 & Hfa2 & Hcs2).
  unfold books in Hs1. injection Hs1 as Hp1 Hk1 _ Hw1 He1 Hsc1 Hfa1 Hcs1.
  assert (Hwi : write_intermediate s2 = true) by congruence.
  rewrite Hwi in H.
  assert (Hne : scores s2 <> []).
  { rewrite Hsc2. apply (avg_returns_scores s1 None). by rewrite Ea. }
  rewrite (top_explored_all s2 Hne) in H.
  injection H as _ <-.
  assert (Hep : epoch s2 = Z.of_nat (length trace)) by congruence.
  assert (Hcsvs : scores_csvs s2 = scores_csvs (self w)) by congruence.
  assert (HndS : NoDup (PyDict.keys (scores s2))).
  { rewrite Hsc2, Hsc1. apply NoDup_keys_update. by rewrite Hb6. }
  assert (HndF : NoDup (PyDict.keys (failures s2))).
  { rewrite Hfa2, Hfa1. apply NoDup_keys_update. by rewrite Hb7. }
  constructor; cbn [self disk set_epoch set_scores_csvs pool k_ write_intermediate
                     epoch scores failures scores_csvs].
  - congruence.
  - congruence.
  - done.
  - rewrite length_app, Hep. cbn. lia.
  - done.
  - done.
  - rewrite !length_app, Hcsvs. cbn. lia.
  - rewrite !length_app, Hcsvs. cbn. lia.
  - intros i wi Hi Hwi'. rewrite length_app in Hi. cbn in Hi.
    rewrite Hcsvs in *.
    destruct (decide (i < length trace)%nat) as [Hlt|Hge].
    + rewrite lookup_app_l in Hwi' by done.
      destruct (Isn i wi) as [(m & Hm1 & Hm2) Hbd]; [lia|done|].
      split; [|done]. exists m. cbn [self disk set_epoch set_scores_csvs scores_csvs].
      split.
      * rewrite lookup_app_l by lia. done.
      * unfold write_file. destruct (decide _) as [Heq|_].
        { injection Heq as _ Heq. lia. }
        rewrite Hdisk; [done|]. intros e. discriminate.
    + assert (i = length trace) as -> by lia.
      rewrite lookup_app_r in Hwi' by done. rewrite Nat.sub_diag in Hwi'.
      injection Hwi' as <-. split.
      * exists (len s2). cbn [self disk set_epoch set_scores_csvs scores_csvs scores failures].
        split.
        { rewrite lookup_app_r by lia. rewrite Hlen, Nat.sub_diag. cbn. by rewrite Hep. }
        { rewrite Hep. unfold write_file. by destruct (decide _). }
      * unfold boundary_ok. cbn [self set_epoch set_scores_csvs scores failures epoch].
        split; [done|]. split; [done|]. split; [|lia].
        unfold avg_ok.
        rewrite (avg_ext (set_scores s0 (scores s2)) s1 None); [by rewrite Ea| | |];
          cbn; congruence.
Qed.

(** A round that found the pool exhausted only lengthens the trace. *)
Lemma exhausted_round_inv s0 trace w :
  run_inv s0 trace w ->
  len_pool (self w) <= PyDict.len (scores (self w)) ->
  run_inv s0
    (trace ++ [mkWorld (set_epoch (self w) (epoch (self w) + 1)) (env w) (disk w)])
    (mkWorld (set_epoch (self w) (epoch (self w) + 1)) (env w) (disk w)).
Proof.
  intros [Ipool Ik Iwr Iep Isc Ifa Itab Iex Isn] Hex.
  constructor; cbn [self disk set_epoch pool k_ write_intermediate
                     epoch scores failures scores_csvs]; try done.
  - rewrite length_app, Iep. cbn. lia.
  - rewrite length_app. cbn. lia.
  - intros i wi Hi Hwi. rewrite lookup_app_l in Hwi by lia.
    destruct (Isn i wi Hi Hwi) as [(m & Hm1 & Hm2) Hbd]. split; [|done].
    by exists m.
Qed.

Lemma explore_batch_inv s0 trace w a w' :
  run_inv s0 trace w ->
  explore_batch C w = (Return a, w') ->
  run_inv s0 (trace ++ [w']) w'.
Proof.
  intros Hinv H.
  apply explore_batch_returns in H
    as [_ [[Hex ->]|(Hnex & w1 & batch & a' & Hb & Hd & H)]].
  - by apply exhausted_round_inv.
  - eapply finish_round_inv; try eassumption.
    destruct Hinv as [_ _ _ _ _ _ Itab Iex _].
    destruct (decide (length (scores_csvs (self w)) < length trace)%nat) as [Hlt|]; [|lia].
    specialize (Iex Hlt). lia.
Qed.

Lemma first_round_inv s0 w0 w1 :
  run_inv s0 [] w0 ->
  first_round C w0 = (Return tt, w1) ->
  run_inv s0 [w1] w1.
Proof.
  intros Hinv H. unfold first_round in H. rewrite bind_get_self in H.
  pose proof (inv_epoch _ _ _ Hinv) as Hep. cbn in Hep. rewrite Hep in H. cbn in H.
  apply bind_returns in H as (a & w2 & H & Hr). injection Hr as <-.
  rewrite explore_initial_spec in H.
  destruct (acquire_initial C _ _) as [inputs e1].
  destruct (objective_calc C _ _ _) as [batch e2].
  apply (finish_round_inv s0 [] w0 _ batch a w2 Hinv) in H; try done.
  pose proof (inv_tables _ _ _ Hinv) as Ht. cbn [length] in Ht |- *. lia.
Qed.

(** Every world of a run that started with no table satisfies [run_inv]. *)
Lemma Run_inv s0 w0 trace w :
  run_inv s0 [] w0 -> Run C w0 trace w -> run_inv s0 trace w.
Proof.
  intros H0. induction 1 as [w1 H1|trace w a w' _ IH H].
  - by apply (first_round_inv s0 w0).
  - by eapply explore_batch_inv.
Qed.
End Replay.

(** What [Explorer(...)] builds when nothing is loaded. *)
Lemma init_fresh {Env} (C : Collaborators Env) pool needs provides a e d w0 :
  arg_previous_scores a = None -> arg_scores_csvs a = CsvsNone ->
  init C pool needs provides a e d = Return w0 ->
  exists s0, construct pool needs provides a = Return s0
             /\ w0 = mkWorld (set_scores_csvs s0 []) e d.
Proof.
  intros Hp Hc. unfold init, init_load. rewrite Hp, Hc.
  destruct (construct pool needs provides a) as [s0|]; [|discriminate].
  cbn. intros [= <-]. by exists s0.
Qed.

Lemma construct_returns pool0 needs0 provides0 a s0 :
  construct pool0 needs0 provides0 a = Return s0 ->
  pool s0 = pool0 /\ write_intermediate s0 = arg_write_intermediate a
  /\ epoch s0 = 0 /\ scores s0 = [] /\ failures s0 = [] /\ scores_csvs s0 = [].
Proof.
  unfold construct. destruct (validate_acquirer needs0 provides0); [|discriminate].
  destruct (k_setter (arg_k a)); [|discriminate].
  destruct (max_explore_setter (arg_max_explore a)); [|discriminate].
  cbn. by intros [= <-].
Qed.

Lemma construct_replay_args pool0 needs0 provides0 a csvs n :
  construct pool0 needs0 provides0 (replay_args a csvs n)
  = construct pool0 needs0 provides0 a.
Proof. reflexivity. Qed.

Lemma run_inv_fresh {Env} s0 (e : Env) d :
  write_intermediate s0 = true -> epoch s0 = 0 ->
  scores s0 = [] -> failures s0 = [] ->
  run_inv s0 [] (mkWorld (set_scores_csvs s0 []) e d).
Proof.
  intros Hw He Hs Hf. constructor; cbn; try done; try lia.
  - rewrite Hs. constructor.
  - rewrite Hf. constructor.
Qed.

(** ** Resuming from the tables *)

Lemma NoDup_keys_sorted_desc S :
  NoDup (PyDict.keys S) -> NoDup (PyDict.keys (sorted_desc S)).
Proof. unfold PyDict.keys. by rewrite sorted_desc_perm. Qed.

Lemma scores_eqb_sorted_desc S :
  NoDup (PyDict.keys S) -> scores_eqb (sorted_desc S) S = true.
Proof.
  intros H. apply eqb_Permutation; [|done|apply sorted_desc_perm].
  intros v. by apply bool_decide_eq_true.
Qed.

Lemma failures_eqb_refl F : NoDup (PyDict.keys F) -> failures_eqb F F = true.
Proof. intros H. by apply eqb_Permutation. Qed.

(** C2, as the code has it.  A run that starts from a newly constructed
    explorer (nothing loaded) with [write_intermediate] on leaves, at each
    round that scores a batch, one table.  A new explorer built with the same
    arguments and the first [i + 1] of these tables as [scores_csvs] loads
    them without raising, and ends with the score map and the failure map of
    the run after its round [i + 1] (equal as dictionaries, the scores now in
    descending order) and with the same epoch count, [i + 1]. *)
Theorem replay_reconstructs_fresh_run
    {Env Env' : Type} (C : Collaborators Env) (C' : Collaborators Env')
    (pool needs provides : list string) (a : Args) (e : Env) (e' : Env')
    (d : path -> option file) (w0 w wi : World Env) (trace : list (World Env))
    (i : nat) :
  arg_previous_scores a = None ->
  arg_scores_csvs a = CsvsNone ->
  arg_write_intermediate a = true ->
  init C pool needs provides a e d = Return w0 ->
  Run C w0 trace w ->
  trace !! i = Some wi ->
  (i < length (scores_csvs (self w)))%nat ->
  exists w',
    init C' pool needs provides (replay_args a (scores_csvs (self w)) (S i)) e' (disk w)
      = Return w'
    /\ scores_eqb (scores (self w')) (scores (self wi)) = true
    /\ failures_eqb (failures (self w')) (failures (self wi)) = true
    /\ epoch (self w') = epoch (self wi).
Proof.
  intros Hprev Hcsvs Hwrite Hinit Hrun Hwi Hi.
  destruct (init_fresh C _ _ _ _ _ _ _ Hprev Hcsvs Hinit) as (s0 & Hs0 & ->).
  destruct (construct_returns _ _ _ _ _ Hs0) as (Hpool & Hw & He & Hs & Hf & _).
  assert (Hinv : run_inv s0 trace w).
  { eapply Run_inv; [|exact Hrun]. apply run_inv_fresh; congruence. }
  destruct Hinv as [_ _ _ _ _ _ Itab _ Isn].
  set (csvs := scores_csvs (self w)) in *.
  set (paths := take (S i) csvs).
  set (snaps := (fun wj : World Env => (sorted_desc (scores (self wj)), failures (self wj)))
                  <$> take (S i) trace).
  set (w1 := mkWorld (set_scores_csvs s0 paths) e' (disk w)).
  destruct (load_loop_snapshots C' paths snaps w1)
    as (w' & Hloop & _ & _ & _ & Hep & Hlast).
  { apply Forall2_same_length_lookup_2.
    - unfold paths, snaps. rewrite length_fmap, !length_take. lia.
    - intros j p SF Hp HSF. unfold paths, snaps in Hp, HSF.
      rewrite list_lookup_fmap in HSF.
      destruct (take (S i) trace !! j) as [wj|] eqn:Hwj; [|discriminate].
      injection HSF as <-.
      apply lookup_take_Some in Hp as [Hp Hj].
      apply lookup_take_Some in Hwj as [Hwj _].
      destruct (Isn j wj) as [(m & Hm1 & Hm2) (HS & HF & Havg & _)]; [lia|done|].
      fold csvs in Hm1. rewrite Hp in Hm1. injection Hm1 as ->.
      cbn [fst snd self disk w1]. split; [done|].
      split; [by apply NoDup_keys_sorted_desc|]. split; [done|].
      apply avg_ok_sorted. by apply (avg_ok_ext s0). }
  exists w'.
  assert (Hne : exists p rest, paths = p :: rest).
  { unfold paths. destruct csvs as [|p rest]; [cbn in Hi; lia|].
    cbn. by eexists _, _. }
  destruct Hne as (p & rest & Hpaths).
  split.
  - unfold init. rewrite construct_replay_args, Hs0. cbn [obind].
    unfold init_load, replay_args. cbn [arg_scores_csvs arg_previous_scores].
    fold paths. rewrite Hpaths.
    unfold mbind at 1, M_bind at 1. cbn [mret M_ret].
    rewrite bind_modify_self. cbn [self env disk].
    unfold load. rewrite bind_get_self. cbn [self scores_csvs set_scores_csvs].
    rewrite <- Hpaths. fold w1. by rewrite Hloop.
  - assert (Hl : last snaps = Some (sorted_desc (scores (self wi)), failures (self wi))).
    { unfold snaps. rewrite fmap_last, last_lookup, length_take.
      replace (Init.Nat.pred (S i `min` length trace)) with i by lia.
      rewrite lookup_take_lt by lia. by rewrite Hwi. }
    destruct (Hlast _ Hl) as [Hsc Hfa]. cbn [fst snd] in Hsc, Hfa.
    destruct (Isn i wi Hi Hwi) as [_ (HS & HF & _ & Hepi)].
    rewrite Hsc, Hfa. split; [by apply scores_eqb_sorted_desc|].
    split; [by apply failures_eqb_refl|].
    rewrite Hep, Hepi. cbn [self w1 epoch set_scores_csvs]. rewrite He.
    unfold paths. rewrite length_take. lia.
Qed.

(** The loop of [run] only extends a [Run]. *)
Lemma run_loop_Run {Env} (C : Collaborators Env) fuel w0 trace w b w' :
  Run C w0 trace w ->
  run_loop C fuel w = (Return b, w') ->
  exists trace', Run C w0 (trace ++ trace') w'.
Proof.
  revert trace w. induction fuel as [|fuel IH]; intros trace w Hrun H.
  - injection H as _ <-. exists []. by rewrite app_nil_r.
  - cbn [run_loop] in H. rewrite bind_get_self in H.
    apply bind_returns in H as (done & w1 & Hdone & H).
    unfold lift in Hdone. injection Hdone as _ <-.
    destruct done.
    + injection H as _ <-. exists []. by rewrite app_nil_r.
    + apply bind_returns in H as (a & w2 & Hb & H).
      destruct (IH (trace ++ [w2]) w2 (Run_batch C w0 trace w a w2 Hrun Hb) H)
        as [trace' Htr].
      exists (w2 :: trace'). by rewrite <- app_assoc in Htr.
Qed.

Lemma pair_eq {A B} (x : A * B) a b : x.1 = a -> x.2 = b -> x = (a, b).
Proof. destruct x. cbn. congruence. Qed.

Lemma demo_run : Run demo demo_w0 [demo_w1; demo_w2; demo_w3] demo_w3.
Proof.
  apply (Run_batch demo demo_w0 [demo_w1; demo_w2] demo_w2 (Some (Qc_of_Z 7)) demo_w3).
  - apply (Run_batch demo demo_w0 [demo_w1] demo_w1 (Some (Qc_of_Z 9)) demo_w2).
    + apply Run_first. apply pair_eq; [vm_compute; reflexivity|].
      unfold demo_w1. reflexivity.
    + apply pair_eq; [|unfold demo_w2; reflexivity].
      vm_compute. do 2 f_equal. by apply Qc_is_canon.
  - apply pair_eq; [|unfold demo_w3; reflexivity].
    vm_compute. do 2 f_equal. by apply Qc_is_canon.
Qed.

(** The run of [demo] over three rounds, replayed up to its second table. *)
Lemma replay_reconstructs_fresh_run_witness :
  exists w',
    init demo pool5 [] [] (replay_args demo_args (scores_csvs (self demo_w3)) 2)
         tt (disk demo_w3) = Return w'
    /\ scores_eqb (scores (self w')) (scores (self demo_w2)) = true
    /\ failures_eqb (failures (self w')) (failures (self demo_w2)) = true
    /\ epoch (self w') = epoch (self demo_w2).
Proof.
  apply (replay_reconstructs_fresh_run demo demo pool5 [] [] demo_args tt tt empty_disk
           demo_w0 demo_w3 demo_w2 [demo_w1; demo_w2; demo_w3] 1).
  - reflexivity.
  - reflexivity.
  - reflexivity.
  - vm_compute. reflexivity.
  - exact demo_run.
  - vm_compute. reflexivity.
  - vm_compute. lia.
Defined.

(** C2 as stated fails for a run seeded with [previous_scores]: the load
    counts as epoch 1 and writes no table, so the run's first table is
    written at the boundary of epoch 2, and replaying it gives the same maps
    at epoch 1. *)
Lemma seeded_run_replays_to_an_earlier_epoch :
  init demo pool5 [] [] seeded_args tt seeded_disk = Return seeded_w0
  /\ Run demo seeded_w0 [seeded_w1] seeded_w1
  /\ scores_csvs (self seeded_w1) = [TopExplored 3 1]
  /\ epoch (self seeded_w1) = 2
  /\ exists w',
       init demo pool5 [] [] (replay_args seeded_args (scores_csvs (self seeded_w1)) 1)
            tt (disk seeded_w1) = Return w'
       /\ scores_eqb (scores (self w')) (scores (self seeded_w1)) = true
       /\ epoch (self w') = 1.
Proof.
  split; [vm_compute; reflexivity|]. split.
  { apply Run_first. apply pair_eq; [vm_compute; reflexivity|].
    unfold seeded_w1. reflexivity. }
  split; [vm_compute; reflexivity|]. split; [vm_compute; reflexivity|].
  destruct (init demo pool5 [] [] (replay_args seeded_args (scores_csvs (self seeded_w1)) 1)
            tt (disk seeded_w1)) as [w'|] eqn:E; [|vm_compute in E; discriminate].
  exists w'. split; [reflexivity|].
  assert (Hs : scores (self w') = sorted_desc (scores (self seeded_w1)) /\ epoch (self w') = 1).
  { vm_compute in E. injection E as <-. vm_compute. split; reflexivity. }
  destruct Hs as [-> ->]. split; [vm_compute; reflexivity|reflexivity].
Qed.

(** ** Loading and the order of the rounds *)

Section LoadEpoch.
Context {Env : Type} (C : Collaborators Env).
Implicit Types (w : World Env) (s : Explorer).

Lemma read_scores_world p w sf w1 :
  read_scores p w = (Return sf, w1) -> w1 = w.
Proof.
  unfold read_scores, mbind, M_bind, open_read, lift.
  destruct (disk w p) as [f|]; [|discriminate].
  destruct (rows_of f); [|discriminate]. cbn. by intros [= _ <-].
Qed.

Lemma when_update_model_epoch b w w1 :
  when b (update_model C) w = (Return tt, w1) -> epoch (self w1) = epoch (self w).
Proof.
  destruct b; cbn [when].
  - intros H. destruct (update_model_frame C w) as [Hb _]. rewrite H in Hb.
    apply books_eq in Hb. tauto.
  - by intros [= <-].
Qed.

(** Each table loaded counts as one epoch. *)
Lemma load_step_epoch p w w' :
  load_step C p w = (Return tt, w') -> epoch (self w') = epoch (self w) + 1.
Proof.
  unfold load_step. intros H.
  apply bind_returns in H as (sf & w1 & Hr & H).
  apply read_scores_world in Hr as ->.
  rewrite !bind_modify_self, bind_get_self in H. cbn [self env disk] in H.
  apply bind_returns in H as ([] & w2 & Hu & H).
  apply when_update_model_epoch in Hu. cbn [self] in Hu.
  rewrite !bind_modify_self, bind_get_self in H. cbn [self env disk] in H.
  apply bind_returns in H as (a & w3 & Ha & H).
  unfold lift in Ha. injection Ha as _ <-.
  rewrite bind_put_self, bind_get_self, when_put_self in H.
  injection H as <-. cbn [self env disk].
  destruct (_ <=? _); cbn; rewrite Hu; reflexivity.
Qed.

Lemma load_loop_epoch csvs w w' :
  load_loop C csvs w = (Return tt, w') ->
  epoch (self w') = epoch (self w) + Z.of_nat (length csvs).
Proof.
  revert w. induction csvs as [|p csvs IH]; intros w H.
  - injection H as <-. cbn. lia.
  - cbn [load_loop] in H. apply bind_returns in H as ([] & w1 & H1 & H).
    apply load_step_epoch in H1. apply IH in H. rewrite H, H1. cbn [length]. lia.
Qed.

Lemma load_epoch w w' :
  load C w = (Return tt, w') ->
  epoch (self w') = epoch (self w) + Z.of_nat (length (scores_csvs (self w))).
Proof. unfold load. rewrite bind_get_self. apply load_loop_epoch. Qed.
End LoadEpoch.

(** C9.  [explore_batch] raises [InvalidExplorationError] exactly when the
    epoch counter is 0.  An initial round that returns, a score load that
    returns ([load_scores], or [load] over at least one table), and a batch
    round that returns each leave the counter past 0, so the next
    [explore_batch] does not raise it. *)
Theorem explore_batch_invalid_iff_epoch_zero
    {Env : Type} (C : Collaborators Env) (w : World Env) :
  ((explore_batch C w).1 = Raise InvalidExplorationError <-> epoch (self w) = 0)
  /\ (forall a w1, 0 <= epoch (self w) -> explore_initial C w = (Return a, w1) ->
        (explore_batch C w1).1 <> Raise InvalidExplorationError)
  /\ (forall p w1, load_scores p w = (Return tt, w1) ->
        (explore_batch C w1).1 <> Raise InvalidExplorationError)
  /\ (forall w1, 0 <= epoch (self w) -> scores_csvs (self w) <> [] ->
        load C w = (Return tt, w1) ->
        (explore_batch C w1).1 <> Raise InvalidExplorationError)
  /\ (forall a w1, 0 <= epoch (self w) -> explore_batch C w = (Return a, w1) ->
        (explore_batch C w1).1 <> Raise InvalidExplorationError).
Proof.
  split; [apply explore_batch_invalid_iff|]. split; [|split; [|split]].
  - intros a w1 H0 H. rewrite explore_batch_invalid_iff.
    rewrite explore_initial_spec in H.
    destruct (acquire_initial C _ _) as [inputs e1].
    destruct (objective_calc C _ _ _) as [batch e2].
    apply finish_round_epoch in H. cbn in H. lia.
  - intros p w1 H. rewrite explore_batch_invalid_iff. by eapply load_scores_epoch.
  - intros w1 H0 Hne H. rewrite explore_batch_invalid_iff.
    apply load_epoch in H. destruct (scores_csvs (self w)); [done|].
    cbn [length] in H. lia.
  - intros a w1 H0 H. rewrite explore_batch_invalid_iff.
    apply explore_batch_returns in H as [_ [[_ ->]|(_ & w3 & batch & a' & Hb & _ & H)]].
    + cbn. lia.
    + apply finish_round_epoch in H.
      assert (epoch (self w3) = epoch (self w)) by (by injection Hb). lia.
Qed.

(** ** More on the top-k selection *)

Lemma desc_trans : Transitive desc.
Proof. intros a b c Hab Hbc. unfold desc in *. by eapply Qcle_trans. Qed.

Lemma sorted_desc_strongly l : StronglySorted desc (sorted_desc l).
Proof. apply Sorted_StronglySorted; [apply desc_trans|apply sorted_desc_sorted]. Qed.

Lemma StronglySorted_take_drop {A} (R : A -> A -> Prop) n (l : list A) x y :
  StronglySorted R l -> x ∈ take n l -> y ∈ drop n l -> R x y.
Proof.
  intros Hl. revert n. induction Hl as [|a l Hl IH Ha]; intros n Hx Hy.
  - rewrite take_nil in Hx. by apply elem_of_nil in Hx.
  - destruct n as [|n]; [by apply elem_of_nil in Hx|].
    cbn in Hx, Hy. apply elem_of_cons in Hx as [->|Hx].
    + rewrite Forall_forall in Ha. apply Ha. by apply (subseteq_drop n l).
    + by apply (IH n).
Qed.

(** Equal scores keep their dictionary order under the sort. *)
Lemma insert_desc_filter v x l :
  filter (fun xy : string * Qc => xy.2 = v) (insert_desc x l)
  = filter (fun xy : string * Qc => xy.2 = v) (x :: l).
Proof.
  induction l as [|y l IH]; [done|]. cbn [insert_desc].
  unfold float_ltb. case_bool_decide as Hlt; [|done].
  rewrite filter_cons, IH, !filter_cons.
  destruct (decide (y.2 = v)) as [Hy|Hy], (decide (x.2 = v)) as [Hx|Hx]; try done.
  rewrite Hx, Hy in Hlt. by apply Qclt_not_eq in Hlt.
Qed.

Lemma sorted_desc_filter v l :
  filter (fun xy : string * Qc => xy.2 = v) (sorted_desc l)
  = filter (fun xy : string * Qc => xy.2 = v) l.
Proof.
  induction l as [|x l IH]; [done|]. cbn [sorted_desc foldr].
  fold (sorted_desc l). rewrite insert_desc_filter, !filter_cons, IH. done.
Qed.

Lemma filter_take_prefix {A} (P : A -> Prop) `{!forall x, Decision (P x)} n (l : list A) :
  filter P (take n l) `prefix_of` filter P l.
Proof.
  rewrite <- (take_drop n l) at 2. rewrite filter_app. by apply prefix_app_r.
Qed.

(** X1.  What [top_explored] returns for a score map with unique identifiers:
    pairs in descending order of score, each an entry of the score map, no
    identifier twice; as many as the clamped count when that is under four
    fifths of the map, the whole map otherwise. *)
Theorem top_explored_selection (s : Explorer) (karg : option num)
    (top : list (string * Qc)) :
  NoDup (PyDict.keys (scores s)) ->
  top_explored s karg = Return top ->
  Sorted desc top
  /\ (forall xy, xy ∈ top -> xy ∈ scores s)
  /\ NoDup (PyDict.keys top)
  /\ Z.of_nat (length top) =
       if 5 * resolve_k s karg <? 4 * PyDict.len (scores s)
       then Z.max 0 (resolve_k s karg)
       else PyDict.len (scores s).
Proof.
  intros Hnd Htop.
  destruct (top_explored_returns s karg top Hnd Htop) as (H1 & H2 & H3).
  repeat split; try done. by apply top_explored_length.
Qed.

Lemma top_explored_selection_witness :
  exists top, top_explored explorer5 (Some (PyInt 2)) = Return top
              /\ Sorted desc top /\ Z.of_nat (length top) = 2.
Proof.
  exists [("C", Qc_of_Z 9); ("E", Qc_of_Z 7)]%string.
  assert (Hnd : NoDup (PyDict.keys (scores explorer5))).
  { apply (NoDup_keys_update [] scores5), NoDup_nil_2. }
  destruct (top_explored_selection explorer5 (Some (PyInt 2))
              [("C", Qc_of_Z 9); ("E", Qc_of_Z 7)]%string Hnd eq_refl)
    as (H1 & _ & _ & H4).
  split; [reflexivity|]. split; [exact H1|]. exact H4.
Defined.

(** X2.  No entry that [top_explored] leaves out has a higher score than one it
    returns. *)
Theorem top_explored_dominates (s : Explorer) (karg : option num)
    (top : list (string * Qc)) (xy zw : string * Qc) :
  top_explored s karg = Return top ->
  xy ∈ top -> zw ∈ scores s -> zw ∉ top ->
  (zw.2 <= xy.2)%Qc.
Proof.
  unfold top_explored. destruct (PyDict.len (scores s) =? 0); [discriminate|].
  destruct (5 * resolve_k s karg <? 4 * PyDict.len (scores s)); intros [= <-] Hxy Hzw Hn.
  - unfold nlargest in *.
    apply (StronglySorted_take_drop desc (Z.to_nat (resolve_k s karg))
             (sorted_desc (scores s)) xy zw); [apply sorted_desc_strongly|done|].
    rewrite <- (sorted_desc_perm (scores s)) in Hzw.
    rewrite <- (take_drop (Z.to_nat (resolve_k s karg)) (sorted_desc (scores s))) in Hzw.
    apply elem_of_app in Hzw as [Hzw|Hzw]; [by destruct Hn|done].
  - destruct Hn. by rewrite sorted_desc_perm.
Qed.

(** X3.  Ties are broken by dictionary order: among the entries of one score,
    [top_explored] returns the earliest inserted, in insertion order. *)
Theorem top_explored_keeps_tie_order (s : Explorer) (karg : option num)
    (top : list (string * Qc)) (v : Qc) :
  top_explored s karg = Return top ->
  filter (fun xy : string * Qc => xy.2 = v) top
    `prefix_of` filter (fun xy : string * Qc => xy.2 = v) (scores s).
Proof.
  unfold top_explored. destruct (PyDict.len (scores s) =? 0); [discriminate|].
  destruct (5 * resolve_k s karg <? 4 * PyDict.len (scores s)); intros [= <-].
  - unfold nlargest. rewrite <- (sorted_desc_filter v (scores s)).
    apply filter_take_prefix.
  - by rewrite sorted_desc_filter.
Qed.

Lemma top_explored_dominates_witness : (Qc_of_Z 5 <= Qc_of_Z 7)%Qc.
Proof.
  apply (top_explored_dominates explorer5 (Some (PyInt 2))
           [("C", Qc_of_Z 9); ("E", Qc_of_Z 7)]%string
           ("E"%string, Qc_of_Z 7) ("A"%string, Qc_of_Z 5)).
  - reflexivity.
  - apply elem_of_cons. right. apply elem_of_cons. by left.
  - apply elem_of_cons. by left.
  - intros H. apply elem_of_cons in H as [H|H]; [discriminate|].
    apply elem_of_cons in H as [H|H]; [discriminate|]. by apply elem_of_nil in H.
Defined.

Lemma top_explored_keeps_tie_order_witness :
  filter (fun xy : string * Qc => xy.2 = Qc_of_Z 9)
         [("C", Qc_of_Z 9); ("E", Qc_of_Z 7)]%string
    `prefix_of` filter (fun xy : string * Qc => xy.2 = Qc_of_Z 9) (scores explorer5).
Proof.
  apply (top_explored_keeps_tie_order explorer5 (Some (PyInt 2))). reflexivity.
Defined.

Lemma avg_is_mean_under_four_fifths_witness :
  exists top,
    top_explored explorer5 (Some (PyInt 2)) = Return top
    /\ Z.of_nat (length top) = resolve_k explorer5 (Some (PyInt 2))
    /\ Some (avg explorer5 (Some (PyInt 2))) = (fun a => Return a) <$> mean (map snd top).
Proof.
  apply (avg_is_mean_under_four_fifths explorer5 (Some (PyInt 2))).
  - vm_compute. discriminate.
  - vm_compute. discriminate.
  - reflexivity.
Defined.

(** ** The shape of a round *)

Lemma explorer_eta s :
  set_updated_model (set_preds (set_new_scores s (new_scores s)) (y_preds s) (y_vars s))
                    (updated_model s) = s.
Proof. by destruct s. Qed.

Section RoundShape.
Context {Env : Type} (C : Collaborators Env).
Implicit Types (w : World Env) (s : Explorer).

Lemma model_step_refl w : model_step w w.
Proof.
  split; [|done]. exists (new_scores (self w)), (y_preds (self w)), (y_vars (self w)),
    (updated_model (self w)). by rewrite explorer_eta.
Qed.

Lemma model_step_trans w1 w2 w3 :
  model_step w1 w2 -> model_step w2 w3 -> model_step w1 w3.
Proof.
  intros [(ns & me & va & um & H1) Hd1] [(ns' & me' & va' & um' & H2) Hd2]. split.
  - exists ns', me', va', um'. rewrite H2, H1. reflexivity.
  - intros p Hp. rewrite Hd2, Hd1; done.
Qed.

Lemma update_model_step w : model_step w (update_model C w).2.
Proof.
  unfold update_model. rewrite bind_get_self.
  destruct (PyDict.len (new_scores (self w)) =? 0).
  - split; [|done]. cbn.
    exists (new_scores (self w)), (y_preds (self w)), (y_vars (self w)), (Some false).
    by destruct (self w).
  - unfold mbind, M_bind, lift, call, modify_self.
    destruct (if retrain_from_scratch (self w) then _ else _); [|apply model_step_refl].
    split; [|done]. cbn.
    exists [], (y_preds (self w)), (y_vars (self w)), (Some true).
    by destruct (self w).
Qed.

Lemma update_predictions_step w :
  (update_predictions C w).1 = Return tt /\ model_step w (update_predictions C w).2.
Proof.
  unfold update_predictions. rewrite bind_get_self.
  destruct (_ && _); [split; [reflexivity|apply model_step_refl]|].
  unfold mbind, M_bind, call, modify_self.
  destruct (model_apply C _ _ _ _) as [preds e]. cbn [self env disk].
  unfold when. destruct (save_preds (self w)).
  - unfold write_preds. rewrite bind_get_self. cbn. split; [reflexivity|]. split.
    + exists (new_scores (self w)), (Some preds.1), (Some preds.2), (Some false).
      by destruct (self w).
    + intros p Hp. cbn [disk]. unfold write_file.
      destruct (decide (p = PredsIter (epoch (self w)))) as [->|]; [|reflexivity].
      by destruct (Hp (epoch (self w))).
  - cbn. split; [reflexivity|]. split; [|done].
    exists (new_scores (self w)), (Some preds.1), (Some preds.2), (Some false).
    by destruct (self w).
Qed.

(** The four ways a batch round goes. *)
Lemma explore_batch_cases w :
  (epoch (self w) = 0
   /\ explore_batch C w = (Raise InvalidExplorationError, w))
  \/ (epoch (self w) <> 0
      /\ len_pool (self w) <= PyDict.len (scores (self w))
      /\ explore_batch C w = (Return (top_k_avg (self w)), exhausted_step w))
  \/ (epoch (self w) <> 0
      /\ PyDict.len (scores (self w)) < len_pool (self w)
      /\ ((exists w1, model_step w w1 /\ explore_batch C w = (Raise ValueError, w1))
          \/ exists w1 batch,
               model_step w w1
               /\ explore_batch C w = some_outcome (finish_round batch w1))).
Proof.
  unfold explore_batch. rewrite bind_get_self.
  destruct (epoch (self w) =? 0) eqn:E0.
  { left. apply Z.eqb_eq in E0. done. }
  apply Z.eqb_neq in E0. right.
  destruct (len_pool (self w) <=? PyDict.len (scores (self w))) eqn:Ex.
  { left. split; [done|]. split; [lia|]. reflexivity. }
  right. split; [done|]. split; [lia|].
  pose proof (update_model_step w) as Hm.
  destruct (update_model C w) as [[[]|e] wa] eqn:Ea; cbn [snd] in Hm.
  2:{ left. exists wa. split; [done|].
      assert (He : (update_model C w).1 = Raise e) by (by rewrite Ea).
      unfold mbind at 1, M_bind at 1. rewrite Ea.
      unfold update_model in He. rewrite bind_get_self in He.
      destruct (PyDict.len (new_scores (self w)) =? 0); [discriminate|].
      unfold mbind, M_bind, lift in He.
      destruct (retrain_from_scratch (self w)).
      - destruct (scores (self w)); cbn in He; [by injection He as <-|discriminate].
      - destruct (new_scores (self w)); cbn in He; [by injection He as <-|discriminate]. }
  right. rewrite (bind_eq _ _ _ _ _ Ea).
  destruct (update_predictions_step wa) as [Hp1 Hp2].
  destruct (update_predictions C wa) as [o wb] eqn:Eb. cbn in Hp1, Hp2. subst o.
  rewrite (bind_eq _ _ _ _ _ Eb), bind_get_self.
  unfold mbind at 1, M_bind at 1, call at 1.
  destruct (acquire_batch C _ _ _ _ _ _) as [inputs e1].
  unfold mbind at 1, M_bind at 1, call at 1. cbn [self env disk].
  destruct (objective_calc C _ _ _) as [batch e2].
  exists (mkWorld (self wb) e2 (disk wb)), batch. split.
  - apply (model_step_trans w wb); [by apply (model_step_trans w wa)|].
    destruct (model_step_refl wb) as [H1 H2]. split; done.
  - unfold mbind, M_bind. by destruct (finish_round batch _) as [[a|e] w'].
Qed.
End RoundShape.

Section RoundEnds.
Context {Env : Type} (C : Collaborators Env).
Implicit Types (w : World Env) (s : Explorer).

(** The three ways the last lines of a round end: in [avg]'s exception, or
    past the epoch increment without or with a table written. *)
Lemma finish_round_cases batch w :
  let s1 := clean_and_update_scores (self w) batch in
  (exists e, avg s1 None = Raise e
             /\ finish_round batch w = (Raise e, mkWorld s1 (env w) (disk w)))
  \/ exists a, avg s1 None = Return a /\
       let s2 := feed_window s1 a in
       (write_intermediate s2 = false
        /\ finish_round batch w
           = (batch_average batch,
              mkWorld (set_epoch s2 (epoch s2 + 1)) (env w) (disk w)))
       \/ (write_intermediate s2 = true
           /\ finish_round batch w
              = (batch_average batch,
                 mkWorld (set_epoch (set_scores_csvs s2
                            (scores_csvs s2 ++ [TopExplored (len s2) (epoch s2)]))
                            (epoch s2 + 1))
                         (env w)
                         (write_file (disk w) (TopExplored (len s2) (epoch s2))
                            (snapshot_table (sorted_desc (scores s2)) (failures s2))))).
Proof.
  cbv zeta. rewrite finish_round_spec. cbv zeta.
  destruct (avg (clean_and_update_scores (self w) batch) None) as [a|e] eqn:Ea.
  2:{ left. by exists e. }
  right. exists a. split; [done|].
  destruct (write_intermediate _) eqn:Ew; [right|left; done].
  split; [done|]. rewrite top_explored_all; [done|].
  pose proof (books_feed_window (clean_and_update_scores (self w) batch) a) as Hb.
  apply books_eq in Hb as (_ & _ & _ & _ & _ & -> & _).
  apply (avg_returns_scores _ None). by rewrite Ea.
Qed.

(** What holds between the world before and the world after each way a
    round can go holds of both rounds, whether they return or raise. *)
Lemma round_ends (P : World Env -> World Env -> Prop) :
  (forall w, P w w) ->
  (forall w, P w (exhausted_step w)) ->
  (forall w w1, model_step w w1 -> P w w1) ->
  (forall w w1 batch, model_step w w1 -> P w (finish_round batch w1).2) ->
  forall w, P w (explore_initial C w).2 /\ P w (explore_batch C w).2.
Proof.
  intros Hrefl Hex Hmodel Hfin w. split.
  - rewrite explore_initial_spec.
    destruct (acquire_initial C _ _) as [inputs e1].
    destruct (objective_calc C _ _ _) as [batch e2].
    apply Hfin. destruct (model_step_refl w) as [H1 H2]. split; done.
  - destruct (explore_batch_cases C w)
      as [[_ ->]|[(_ & _ & ->)|(_ & _ & [(w1 & Hm & ->)|(w1 & batch & Hm & ->)])]];
      cbn [snd]; auto.
    unfold some_outcome. specialize (Hfin w w1 batch Hm).
    by destruct (finish_round batch w1) as [[a|e] w'].
Qed.

Lemma length_set_ge {V} (d : list (string * V)) x v :
  (length d <= length (PyDict.set d x v))%nat.
Proof.
  induction d as [|[y u] d IH]; cbn; [lia|].
  destruct (decide (y = x)); cbn; lia.
Qed.

Lemma length_update_ge {V} (d l : list (string * V)) :
  (length d <= length (PyDict.update d l))%nat.
Proof.
  revert d. induction l as [|[x v] l IH]; intros d; [done|].
  change (PyDict.update d ((x, v) :: l)) with (PyDict.update (PyDict.set d x v) l).
  etransitivity; [apply (length_set_ge d x v)|apply IH].
Qed.

Lemma length_deque_append maxlen q x :
  (length q <= maxlen)%nat -> (length (deque_append maxlen q x) <= maxlen)%nat.
Proof.
  intros H. unfold deque_append. destruct maxlen as [|n]; [done|].
  destruct (length q <? S n)%nat eqn:E.
  - apply Nat.ltb_lt in E. rewrite length_app. cbn. lia.
  - apply Nat.ltb_ge in E. rewrite length_app. destruct q; cbn in *; lia.
Qed.
End RoundEnds.

(** X5.  A round that returns has advanced the epoch by exactly one, the no-op
    round on an exhausted pool included; a round that raises has advanced it
    by one or not at all, and never moved it back. *)
Theorem rounds_advance_epoch {Env : Type} (C : Collaborators Env) (w : World Env) :
  (forall a w', explore_initial C w = (Return a, w') ->
                epoch (self w') = epoch (self w) + 1)
  /\ (forall a w', explore_batch C w = (Return a, w') ->
                   epoch (self w') = epoch (self w) + 1)
  /\ (epoch (self w) <= epoch (self (explore_initial C w).2) <= epoch (self w) + 1)
  /\ (epoch (self w) <= epoch (self (explore_batch C w).2) <= epoch (self w) + 1).
Proof.
  split; [|split].
  - intros a w' H. rewrite explore_initial_spec in H.
    destruct (acquire_initial C _ _) as [inputs e1].
    destruct (objective_calc C _ _ _) as [batch e2].
    by apply finish_round_epoch in H.
  - intros a w' H.
    apply explore_batch_returns in H as [_ [[_ ->]|(_ & w3 & batch & a' & Hb & _ & H)]].
    + reflexivity.
    + apply finish_round_epoch in H. apply books_eq in Hb. rewrite H. lia.
  - apply (round_ends C (fun w w' => epoch (self w) <= epoch (self w') <= epoch (self w) + 1)).
    + intros w0. lia.
    + intros w0. cbn. lia.
    + intros w0 w1 [(ns & me & va & um & ->) _]. cbn. lia.
    + intros w0 w1 batch [(ns & me & va & um & Hs) _].
      assert (He : forall a, epoch (feed_window (clean_and_update_scores (self w1) batch) a)
                             = epoch (self w0)).
      { intros a.
        pose proof (books_feed_window (clean_and_update_scores (self w1) batch) a) as Hb.
        rewrite books_clean_and_update_scores in Hb. injection Hb as _ _ _ _ -> _ _ _.
        by rewrite Hs. }
      destruct (finish_round_cases batch w1) as [(e & _ & ->)|(a & _ & [[_ ->]|[_ ->]])];
        cbn [snd self set_epoch set_scores_csvs epoch].
      * rewrite clean_and_update_scores_spec, Hs. cbn. lia.
      * rewrite He. lia.
      * rewrite He. lia.
Qed.

(** ** What the rounds keep *)

(** X6.  The window of recent averages keeps its capacity and never holds more
    than [window_size] averages, whether the round returns or raises; a round
    feeds it only when at least [k] inputs are scored. *)
Theorem rounds_keep_window {Env : Type} (C : Collaborators Env) (w : World Env) :
  (length (recent_avgs (self w)) <= window_size (self w))%nat ->
  let kept (w' : World Env) :=
    window_size (self w') = window_size (self w)
    /\ (length (recent_avgs (self w')) <= window_size (self w'))%nat
    /\ (recent_avgs (self w') = recent_avgs (self w)
        \/ k (self w') <= PyDict.len (scores (self w'))) in
  kept (explore_initial C w).2 /\ kept (explore_batch C w).2.
Proof.
  intros Hlen. cbv zeta.
  pose proof (round_ends C (fun w w' =>
    (length (recent_avgs (self w)) <= window_size (self w))%nat ->
    window_size (self w') = window_size (self w)
    /\ (length (recent_avgs (self w')) <= window_size (self w'))%nat
    /\ (recent_avgs (self w') = recent_avgs (self w)
        \/ k (self w') <= PyDict.len (scores (self w'))))) as H.
  destruct (H) with (w := w) as [H1 H2].
  - intros w0 H0. auto.
  - intros w0 H0. cbn. auto.
  - intros w0 w1 [(ns & me & va & um & ->) _] H0. cbn. auto.
  - intros w0 w1 batch [(ns & me & va & um & Hs) _] H0.
    assert (Hfw : forall a,
      let s2 := feed_window (clean_and_update_scores (self w1) batch) a in
      window_size s2 = window_size (self w0)
      /\ (length (recent_avgs s2) <= window_size s2)%nat
      /\ (recent_avgs s2 = recent_avgs (self w0) \/ k s2 <= PyDict.len (scores s2))).
    { intros a. cbv zeta. unfold feed_window. cbv zeta.
      rewrite clean_and_update_scores_spec, Hs.
      destruct (_ <=? _) eqn:Ek; cbn.
      - split; [done|]. split; [by apply length_deque_append|].
        right. apply Z.leb_le in Ek. exact Ek.
      - auto. }
    destruct (finish_round_cases batch w1) as [(e & _ & ->)|(a & _ & [[_ ->]|[_ ->]])];
      cbn [snd self].
    + rewrite clean_and_update_scores_spec, Hs. cbn. auto.
    + apply (Hfw a).
    + apply (Hfw a).
  - auto.
Qed.

Lemma rounds_keep_window_witness :
  (length (recent_avgs (self (explore_batch demo demo_w1).2))
   <= window_size (self (explore_batch demo demo_w1).2))%nat.
Proof.
  assert (H : (length (recent_avgs (self demo_w1)) <= window_size (self demo_w1))%nat).
  { vm_compute. lia. }
  destruct (rounds_keep_window demo demo_w1 H) as [_ (_ & H2 & _)]. exact H2.
Defined.

(** X7.  A round never removes an identifier from the score map or from the
    failure map, whether it returns or raises, so [len(self)] never
    decreases. *)
Theorem rounds_keep_entries {Env : Type} (C : Collaborators Env) (w : World Env) :
  let kept (w' : World Env) :=
    (forall x, x ∈ PyDict.keys (scores (self w)) -> x ∈ PyDict.keys (scores (self w')))
    /\ (forall x, x ∈ PyDict.keys (failures (self w)) ->
                  x ∈ PyDict.keys (failures (self w')))
    /\ len (self w) <= len (self w') in
  kept (explore_initial C w).2 /\ kept (explore_batch C w).2.
Proof.
  cbv zeta.
  apply (round_ends C (fun w w' =>
    (forall x, x ∈ PyDict.keys (scores (self w)) -> x ∈ PyDict.keys (scores (self w')))
    /\ (forall x, x ∈ PyDict.keys (failures (self w)) ->
                  x ∈ PyDict.keys (failures (self w')))
    /\ len (self w) <= len (self w'))).
  - intros w0. repeat split; auto. lia.
  - intros w0. cbn. repeat split; auto. unfold len. cbn. lia.
  - intros w0 w1 [(ns & me & va & um & ->) _]. cbn. repeat split; auto. unfold len. cbn. lia.
  - intros w0 w1 batch [(ns & me & va & um & Hs) _].
    assert (Hs1 : forall s2,
      scores s2 = scores (clean_and_update_scores (self w1) batch) ->
      failures s2 = failures (clean_and_update_scores (self w1) batch) ->
      (forall x, x ∈ PyDict.keys (scores (self w0)) -> x ∈ PyDict.keys (scores s2))
      /\ (forall x, x ∈ PyDict.keys (failures (self w0)) -> x ∈ PyDict.keys (failures s2))
      /\ len (self w0) <= len s2).
    { intros s2 Hsc Hfa. rewrite clean_and_update_scores_spec, Hs in Hsc, Hfa.
      cbn in Hsc, Hfa. unfold len, PyDict.len. rewrite Hsc, Hfa. repeat split.
      - intros x Hx. apply elem_of_keys_update. by left.
      - intros x Hx. apply elem_of_keys_update. by left.
      - pose proof (length_update_ge (scores (self w0)) (succeeded batch)).
        pose proof (length_update_ge (failures (self w0)) (failed batch)). lia. }
    assert (Hfw : forall a,
      scores (feed_window (clean_and_update_scores (self w1) batch) a)
        = scores (clean_and_update_scores (self w1) batch)
      /\ failures (feed_window (clean_and_update_scores (self w1) batch) a)
        = failures (clean_and_update_scores (self w1) batch)).
    { intros a.
      pose proof (books_feed_window (clean_and_update_scores (self w1) batch) a) as Hb.
      apply books_eq in Hb. tauto. }
    destruct (finish_round_cases batch w1) as [(e & _ & ->)|(a & _ & [[_ ->]|[_ ->]])];
      cbn [snd self]; apply Hs1; try reflexivity; cbn; apply (Hfw a).
Qed.

Lemma world_epoch_eta {Env} (w : World Env) :
  mkWorld (set_epoch (self w) (epoch (self w) + 0)) (env w) (disk w) = w.
Proof. destruct w as [[] e d]. cbn. by rewrite Z.add_0_r. Qed.

(** X8.  Once every input of the pool is scored, batch rounds only count: each
    returns the stored top-k average, calls no collaborator, writes nothing,
    and after [n] of them the world differs in its epoch alone, [n] higher. *)
Theorem exhausted_rounds_only_count
    {Env : Type} (C : Collaborators Env) (w : World Env) (n : nat) :
  0 < epoch (self w) ->
  len_pool (self w) <= PyDict.len (scores (self w)) ->
  let wn := Nat.iter n (fun w => (explore_batch C w).2) w in
  wn = mkWorld (set_epoch (self w) (epoch (self w) + Z.of_nat n)) (env w) (disk w)
  /\ (explore_batch C wn).1 = Return (top_k_avg (self w)).
Proof.
  intros Hep Hex. cbv zeta.
  assert (Hn : Nat.iter n (fun w => (explore_batch C w).2) w
               = mkWorld (set_epoch (self w) (epoch (self w) + Z.of_nat n)) (env w) (disk w)).
  { induction n as [|n IH]; [cbn; by rewrite world_epoch_eta|].
    rewrite Nat.iter_succ, IH.
    destruct (explore_batch_cases C
      (mkWorld (set_epoch (self w) (epoch (self w) + Z.of_nat n)) (env w) (disk w)))
      as [[H0 _]|[(_ & _ & ->)|(_ & Hlt & _)]];
      unfold len_pool, PyDict.len in *; cbn in *; [lia| |lia].
    unfold exhausted_step. cbn. do 2 f_equal. lia. }
  split; [exact Hn|]. rewrite Hn.
  destruct (explore_batch_cases C
      (mkWorld (set_epoch (self w) (epoch (self w) + Z.of_nat n)) (env w) (disk w)))
      as [[H0 _]|[(_ & _ & ->)|(_ & Hlt & _)]];
      unfold len_pool, PyDict.len in *; cbn in *; [lia|done|lia].
Qed.

(** X9.  A round in which no input gets a score never returns: it raises in
    [avg], or at the batch average, where it divides by zero. *)
Theorem round_without_score_raises
    {Env : Type} (C : Collaborators Env) (w : World Env) :
  let batch :=
    (objective_calc C (acquire_initial C (env w) (pool (self w))).2
                    (acquire_initial C (env w) (pool (self w))).1
                    (epoch (self w))).1 in
  omap snd batch = [] -> returns (explore_initial C w).1 = false.
Proof.
  cbv zeta. rewrite explore_initial_spec.
  destruct (acquire_initial C _ _) as [inputs e1]. cbn [fst snd].
  destruct (objective_calc C _ _ _) as [batch e2]. cbn [fst snd]. intros Hb.
  destruct (finish_round_cases batch (mkWorld (self w) e2 (disk w)))
    as [(e & _ & ->)|(a & _ & [[_ ->]|[_ ->]])]; cbn [fst]; try done;
    unfold batch_average; by rewrite Hb.
Qed.

(** X10.  After a round that scored a batch and returned, the stored top-k average
    is the top-k average of the scores as they now stand. *)
Theorem round_stores_current_average
    {Env : Type} (C : Collaborators Env) (w : World Env) :
  (forall r w', explore_initial C w = (Return r, w') ->
     exists a, top_k_avg (self w') = Some a /\ avg (self w') None = Return a)
  /\ (forall r w', PyDict.len (scores (self w)) < len_pool (self w) ->
        explore_batch C w = (Return r, w') ->
        exists a, top_k_avg (self w') = Some a /\ avg (self w') None = Return a).
Proof.
  assert (Hfin : forall batch (w1 w' : World Env) r,
    finish_round batch w1 = (Return r, w') ->
    exists a, top_k_avg (self w') = Some a /\ avg (self w') None = Return a).
  { intros batch w1 w' r H.
    assert (Hfw : forall a,
      let s1 := clean_and_update_scores (self w1) batch in
      top_k_avg (feed_window s1 a) = Some a
      /\ forall s2, k_ s2 = k_ (feed_window s1 a) -> pool s2 = pool (feed_window s1 a) ->
                    scores s2 = scores (feed_window s1 a) -> avg s2 None = avg s1 None).
    { intros a. cbv zeta. split.
      - unfold feed_window. cbv zeta. by destruct (_ <=? _).
      - intros s2 H1 H2 H3.
        pose proof (books_feed_window (clean_and_update_scores (self w1) batch) a) as Hb.
        apply books_eq in Hb as (Hb1 & Hb2 & _ & _ & _ & Hb6 & _).
        apply avg_ext; congruence. }
    destruct (finish_round_cases batch w1) as [(e & _ & He)|(a & Ha & [[_ He]|[_ He]])];
      rewrite He in H; [discriminate| |]; injection H as _ <-; exists a;
      destruct (Hfw a) as [Ht Havg]; cbn [self];
      (split; [exact Ht|rewrite <- Ha; by apply Havg]). }
  split.
  - intros r w' H. rewrite explore_initial_spec in H.
    destruct (acquire_initial C _ _) as [inputs e1].
    destruct (objective_calc C _ _ _) as [batch e2]. by eapply Hfin.
  - intros r w' Hlt H.
    destruct (explore_batch_cases C w)
      as [[_ E]|[(_ & Hex & _)|(_ & _ & [(w1 & _ & E)|(w1 & batch & _ & E)])]];
      [rewrite E in H; discriminate|lia|rewrite E in H; discriminate|].
    rewrite E in H. unfold some_outcome in H.
    destruct (finish_round batch w1) as [[a|e] w2] eqn:Ef; [|discriminate].
    injection H as _ <-. by eapply Hfin.
Qed.

Lemma exhausted_rounds_only_count_witness :
  (explore_batch demo (Nat.iter 3 (fun w => (explore_batch demo w).2) full_world)).1
  = Return (top_k_avg (self full_world)).
Proof.
  apply (exhausted_rounds_only_count demo full_world 3).
  - reflexivity.
  - vm_compute. discriminate.
Defined.

Lemma round_without_score_raises_witness :
  returns (explore_initial failing demo_w0).1 = false.
Proof. apply (round_without_score_raises failing demo_w0). reflexivity. Defined.

(** ** Looking up what was merged or read *)

Lemma get_set {V} (d : list (string * V)) x v y :
  PyDict.get (PyDict.set d x v) y = if decide (x = y) then Some v else PyDict.get d y.
Proof.
  induction d as [|[z u] d IH]; cbn.
  - by destruct (decide (x = y)).
  - destruct (decide (z = x)) as [->|Hzx]; cbn.
    + destruct (decide (x = y)); done.
    + destruct (decide (z = y)) as [->|Hzy]; [by destruct (decide (x = y))|].
      apply IH.
Qed.

Lemma get_update {V} (d l : list (string * V)) y :
  PyDict.get (PyDict.update d l) y =
  match PyDict.last_value l y with Some v => Some v | None => PyDict.get d y end.
Proof.
  revert d. induction l as [|[x v] l IH]; intros d; [done|].
  change (PyDict.update d ((x, v) :: l)) with (PyDict.update (PyDict.set d x v) l).
  rewrite IH, last_value_cons, get_set.
  destruct (PyDict.last_value l y); [done|]. by destruct (decide (x = y)).
Qed.

Lemma get_None_keys {V} (d : list (string * V)) x :
  PyDict.get d x = None <-> x ∉ PyDict.keys d.
Proof.
  unfold PyDict.keys. induction d as [|[y v] d IH]; cbn.
  - split; [intros _; apply not_elem_of_nil|done].
  - rewrite not_elem_of_cons. destruct (decide (y = x)) as [->|Hne].
    + split; [discriminate|]. intros [? _]. done.
    + rewrite IH. split; [|tauto]. intros H. split; [congruence|done].
Qed.

(** X11.  Merging is an upsert: afterwards an identifier scored in the batch has
    the last score the batch gives it, any other keeps what it had; failures
    likewise, and a failure in the batch leaves the score map's entry for
    that identifier as it was. *)
Theorem merge_is_upsert (s : Explorer) (batch : list (string * option Qc)) (x : string) :
  PyDict.get (scores (clean_and_update_scores s batch)) x
    = match PyDict.last_value (succeeded batch) x with
      | Some y => Some y
      | None => PyDict.get (scores s) x
      end
  /\ PyDict.get (new_scores (clean_and_update_scores s batch)) x
    = match PyDict.last_value (succeeded batch) x with
      | Some y => Some y
      | None => PyDict.get (new_scores s) x
      end
  /\ PyDict.get (failures (clean_and_update_scores s batch)) x
    = match PyDict.last_value (failed batch) x with
      | Some n => Some n
      | None => PyDict.get (failures s) x
      end.
Proof.
  rewrite clean_and_update_scores_spec. cbn [scores new_scores failures].
  by rewrite !get_update.
Qed.

Lemma read_rows_updates rows :
  read_rows rows = (PyDict.update [] (float_rows rows), PyDict.update [] (other_rows rows)).
Proof.
  unfold read_rows. generalize (@nil (string * Qc)) (@nil (string * unit)).
  induction rows as [|[x [y|t]] rows IH]; intros s0 f0; [done| |]; cbn; by rewrite IH.
Qed.

Lemma keys_float_other_rows rows x :
  x ∈ map fst rows <->
  x ∈ PyDict.keys (float_rows rows) \/ x ∈ PyDict.keys (other_rows rows).
Proof.
  unfold PyDict.keys. induction rows as [|[z [y|t]] rows IH]; cbn.
  - rewrite !elem_of_nil. tauto.
  - rewrite !elem_of_cons, IH. tauto.
  - rewrite !elem_of_cons, IH. tauto.
Qed.

(** X12.  Reading a table is lenient and loses no row: a missing file raises
    [FileNotFoundError] and changes nothing; otherwise every identifier of
    the table is a key of the scores or of the failures read, each map has
    the identifier once, and a repeated identifier has the last float the
    table gives it. *)
Theorem read_scores_keeps_every_row {Env : Type} (p : path) (w : World Env) :
  (disk w p = None -> read_scores p w = (Raise FileNotFoundError, w))
  /\ forall rows, disk w p = Some (ScoresCsv rows) ->
       exists S F,
         read_scores p w = (Return (S, F), w)
         /\ NoDup (PyDict.keys S) /\ NoDup (PyDict.keys F)
         /\ (forall x, x ∈ map fst rows <-> x ∈ PyDict.keys S \/ x ∈ PyDict.keys F)
         /\ (forall x, PyDict.get S x = PyDict.last_value (float_rows rows) x).
Proof.
  split.
  - intros Hp. unfold read_scores, mbind, M_bind, open_read. by rewrite Hp.
  - intros rows Hp. eexists _, _. split.
    + unfold read_scores, mbind, M_bind, open_read, lift. rewrite Hp. cbn.
      by rewrite read_rows_updates.
    + split; [apply NoDup_keys_update, NoDup_nil_2|].
      split; [apply NoDup_keys_update, NoDup_nil_2|]. split.
      * intros x. rewrite keys_float_other_rows, !elem_of_keys_update.
        unfold PyDict.keys at 1 3. cbn. rewrite !elem_of_nil. tauto.
      * intros x. rewrite get_update. by destruct (PyDict.last_value _ x).
Qed.

(** ** Tables written and read back *)



Section LoadMore.
Context {Env : Type} (C : Collaborators Env).
Implicit Types (w : World Env) (s : Explorer).

(** X14.  [load_scores] fails on a missing file without changing anything; when it
    returns it has only added to the two maps, set the epoch to 1 if it was
    0, and left [new_scores] and the collaborators alone: the loaded scores
    are not queued for training. *)
Theorem load_scores_only_adds (p : path) w :
  (disk w p = None -> load_scores p w = (Raise FileNotFoundError, w))
  /\ forall w', load_scores p w = (Return tt, w') ->
       (forall x, x ∈ PyDict.keys (scores (self w)) ->
                  x ∈ PyDict.keys (scores (self w')))
       /\ (forall x, x ∈ PyDict.keys (failures (self w)) ->
                     x ∈ PyDict.keys (failures (self w')))
       /\ epoch (self w') = (if epoch (self w) =? 0 then 1 else epoch (self w))
       /\ new_scores (self w') = new_scores (self w)
       /\ env w' = env w /\ disk w' = disk w.
Proof.
  split.
  - intros Hp. unfold load_scores, read_scores, mbind, M_bind, open_read. by rewrite Hp.
  - intros w' H. unfold load_scores in H.
    apply bind_returns in H as (sf & w1 & Hr & H).
    apply read_scores_world in Hr as ->.
    rewrite !bind_modify_self, bind_get_self, when_put_self in H.
    injection H as <-. cbn [self env disk].
    destruct (epoch (self w) =? 0) eqn:E; cbn; rewrite ?E;
      repeat split; try done; intros x Hx; apply elem_of_keys_update; by left.
Qed.

(** One iteration of [load]'s loop that returns. *)
Lemma load_step_returns p w w' :
  load_step C p w = (Return tt, w') ->
  exists sf, read_scores p w = (Return sf, w)
             /\ scores (self w') = sf.1 /\ failures (self w') = sf.2
             /\ epoch (self w') = epoch (self w) + 1
             /\ disk w' = disk w.
Proof.
  unfold load_step. intros H.
  apply bind_returns in H as (sf & w1 & Hr & H).
  pose proof (read_scores_world _ _ _ _ Hr) as ->.
  exists sf. split; [done|].
  rewrite !bind_modify_self, bind_get_self in H. cbn [self env disk] in H.
  apply bind_returns in H as ([] & w2 & Hu & H).
  assert (Hw2 : epoch (self w2) = epoch (self w) /\ failures (self w2) = sf.2
                /\ disk w2 = disk w).
  { destruct (negb _); cbn [when] in Hu.
    - destruct (update_model_frame C
        (mkWorld (set_new_scores (set_failures (self w) sf.2)
           (filter (fun xy => negb (PyDict.contains (scores (set_failures (self w) sf.2)) xy.1))
                   sf.1)) (env w) (disk w))) as [Hb Hd].
      rewrite Hu in Hb, Hd. apply books_eq in Hb. cbn in Hb, Hd. tauto.
    - by injection Hu as <-. }
  destruct Hw2 as (He2 & Hf2 & Hd2).
  rewrite !bind_modify_self, bind_get_self in H. cbn [self env disk] in H.
  apply bind_returns in H as (a & w3 & Ha & H).
  unfold lift in Ha. injection Ha as _ <-.
  rewrite bind_put_self, bind_get_self, when_put_self in H.
  injection H as <-. cbn [self env disk].
  destruct (_ <=? _); cbn; rewrite He2; repeat split; done.
Qed.

(** X15.  Each table [load] reads replaces both maps, so a [load] that returns
    ends with the maps of the last table of the list, one epoch later per
    table, and the disk as it was. *)
Theorem load_ends_on_last_table w w' (p : path) :
  last (scores_csvs (self w)) = Some p ->
  load C w = (Return tt, w') ->
  exists sf, read_scores p w = (Return sf, w)
             /\ scores (self w') = sf.1 /\ failures (self w') = sf.2
             /\ epoch (self w') = epoch (self w) + Z.of_nat (length (scores_csvs (self w)))
             /\ disk w' = disk w.
Proof.
  unfold load. rewrite bind_get_self. generalize (scores_csvs (self w)). intros csvs.
  revert w. induction csvs as [|q csvs IH]; intros w Hlast H; [discriminate|].
  cbn [load_loop] in H. apply bind_returns in H as ([] & w1 & H1 & H).
  destruct (load_step_returns _ _ _ H1) as (sf & Hr & Hs & Hf & He & Hd).
  destruct csvs as [|q' csvs].
  - injection Hlast as <-. injection H as <-. exists sf. cbn. by repeat split.
  - rewrite last_cons_cons in Hlast.
    destruct (IH w1 Hlast H) as (sf' & Hr' & Hs' & Hf' & He' & Hd').
    exists sf'. split.
    + unfold read_scores, mbind, M_bind, open_read, lift in *. rewrite <- Hd.
      destruct (disk w1 p) as [f|]; [|discriminate].
      destruct (rows_of f); [|discriminate]. cbn in *. by injection Hr' as ->.
    + split; [done|]. split; [done|]. split; [|congruence].
      rewrite He', He. cbn [length]. lia.
Qed.
End LoadMore.

(** X16.  [save] and construction form a round trip: an explorer constructed from
    the pickle [save] wrote is the explorer constructed from the list of
    tables that was saved. *)
Theorem init_from_saved_state {Env Env' : Type} (C : Collaborators Env')
    (w w1 : World Env) (p : path) (pool needs provides : list string)
    (a : Args) (e : Env') :
  save w = (Return p, w1) ->
  init C pool needs provides (with_scores_csvs a (CsvsPickle p)) e (disk w1)
  = init C pool needs provides
         (with_scores_csvs a (CsvsList (scores_csvs (self w)))) e (disk w1).
Proof.
  unfold save. rewrite bind_get_self. unfold mbind, M_bind, open_write. cbn.
  intros [= <- <-]. unfold init.
  change (construct pool needs provides (with_scores_csvs a _))
    with (construct pool needs provides a).
  destruct (construct pool needs provides a) as [s0|]; [|done]. cbn [obind].
  unfold init_load. cbn [with_scores_csvs arg_scores_csvs arg_previous_scores].
  unfold mbind at 1 3, M_bind at 1 3, open_read. cbn [disk].
  unfold write_file at 1. destruct (decide _); [|done]. cbn [mret M_ret].
  unfold mbind at 1 2, M_bind at 1 2.
  destruct (arg_previous_scores a); [done|].
  destruct (scores_csvs (self w)); done.
Qed.

Lemma load_ends_on_last_table_witness :
  exists sf,
    read_scores (TopExplored 5 2) replay_world = (Return sf, replay_world)
    /\ scores (self (load demo replay_world).2) = sf.1
    /\ failures (self (load demo replay_world).2) = sf.2
    /\ epoch (self (load demo replay_world).2)
       = epoch (self replay_world)
         + Z.of_nat (length (scores_csvs (self replay_world)))
    /\ disk (load demo replay_world).2 = disk replay_world.
Proof.
  apply (load_ends_on_last_table demo replay_world (load demo replay_world).2).
  - vm_compute. reflexivity.
  - apply pair_eq; [vm_compute; reflexivity|reflexivity].
Defined.

Lemma init_from_saved_state_witness :
  init demo pool5 [] [] (with_scores_csvs demo_args (CsvsPickle (StatePkl 3))) tt
       (disk (save demo_w3).2)
  = init demo pool5 [] []
         (with_scores_csvs demo_args (CsvsList (scores_csvs (self demo_w3)))) tt
         (disk (save demo_w3).2).
Proof.
  apply (init_from_saved_state demo demo_w3 (save demo_w3).2 (StatePkl 3)).
  apply pair_eq; [vm_compute; reflexivity|reflexivity].
Defined.

(** ** Configuration *)

(** X17.  [_validate_acquirer] rejects exactly the pairs in which the model's
    outputs are a proper subset of the acquirer's needs; in particular an
    acquirer all of whose needs are provided is never rejected. *)
Theorem validate_acquirer_rejects_proper_subsets (needs provides : list string) :
  (validate_acquirer needs provides = Raise IncompatibilityError
   <-> (forall x, x ∈ provides -> x ∈ needs)
       /\ exists x, x ∈ needs /\ x ∉ provides)
  /\ ((forall x, x ∈ needs -> x ∈ provides) ->
      validate_acquirer needs provides = Return tt).
Proof.
  assert (Hall : forall l1 l2 : list string,
    forallb (fun x => bool_decide (x ∈ l2)) l1 = true <-> forall x, x ∈ l1 -> x ∈ l2).
  { intros l1 l2. rewrite forallb_forall. split.
    - intros H x Hx. apply list_elem_of_In in Hx. apply H in Hx.
      by apply bool_decide_eq_true in Hx.
    - intros H x Hx. apply bool_decide_eq_true, H. by apply list_elem_of_In. }
  assert (Hnot : forall l1 l2 : list string,
    forallb (fun x => bool_decide (x ∈ l2)) l1 = false <-> exists x, x ∈ l1 /\ x ∉ l2).
  { intros l1 l2. induction l1 as [|y l1 IH]; cbn.
    - split; [discriminate|]. intros (x & Hx & _). by apply elem_of_nil in Hx.
    - rewrite andb_false_iff, IH, bool_decide_eq_false. split.
      + intros [Hy|(x & Hx & Hn)]; [exists y|exists x]; rewrite elem_of_cons; tauto.
      + intros (x & Hx & Hn). apply elem_of_cons in Hx as [->|Hx]; [by left|].
        right. by exists x. }
  unfold validate_acquirer. split.
  - destruct (forallb _ provides) eqn:E1; cbn.
    + pose proof (proj1 (Hall _ _) E1) as H1. destruct (forallb _ needs) eqn:E2; cbn.
      * split; [discriminate|]. intros [_ (x & Hx & Hn)].
        pose proof (proj1 (Hall _ _) E2) as H2. destruct Hn. by apply H2.
      * pose proof (proj1 (Hnot _ _) E2) as H2. done.
    + split; [discriminate|]. intros [H _].
      pose proof (proj2 (Hall _ _) H) as H1. congruence.
  - intros H. pose proof (proj2 (Hall _ _) H) as H1. rewrite H1. cbn.
    by rewrite andb_false_r.
Qed.

(** What [load_scores] leaves besides the two maps. *)
Lemma load_scores_returns {Env} (p : path) (w w' : World Env) :
  load_scores p w = (Return tt, w') ->
  epoch (self w') = (if epoch (self w) =? 0 then 1 else epoch (self w))
  /\ new_scores (self w') = new_scores (self w)
  /\ top_k_avg (self w') = top_k_avg (self w)
  /\ recent_avgs (self w') = recent_avgs (self w)
  /\ scores_csvs (self w') = scores_csvs (self w)
  /\ env w' = env w /\ disk w' = disk w /\ is_Some (disk w p).
Proof.
  intros H. unfold load_scores in H.
  apply bind_returns in H as (sf & w1 & Hr & H).
  assert (Hp : is_Some (disk w p)).
  { unfold read_scores, mbind, M_bind, open_read in Hr.
    destruct (disk w p); [eauto|discriminate]. }
  apply read_scores_world in Hr as ->.
  rewrite !bind_modify_self, bind_get_self, when_put_self in H.
  injection H as <-. cbn [self env disk].
  destruct (epoch (self w) =? 0) eqn:E; cbn; rewrite ?E; done.
Qed.

Section LoadTables.
Context {Env : Type} (C : Collaborators Env).
Implicit Types (w : World Env) (s : Explorer).

Lemma when_update_model_books b w w1 :
  when b (update_model C) w = (Return tt, w1) -> books (self w1) = books (self w).
Proof.
  destruct b; cbn [when].
  - intros H. pose proof (proj1 (update_model_frame C w)) as Hb. by rewrite H in Hb.
  - by intros [= <-].
Qed.

(** [load] reads the list of tables and leaves it as it is. *)
Lemma load_step_tables p w w' :
  load_step C p w = (Return tt, w') -> scores_csvs (self w') = scores_csvs (self w).
Proof.
  unfold load_step. intros H.
  apply bind_returns in H as (sf & w1 & Hr & H).
  apply read_scores_world in Hr as ->.
  rewrite !bind_modify_self, bind_get_self in H. cbn [self env disk] in H.
  apply bind_returns in H as ([] & w2 & Hu & H).
  apply when_update_model_books, books_eq in Hu as (_ & _ & _ & _ & _ & _ & _ & Hu).
  cbn [self] in Hu.
  rewrite !bind_modify_self, bind_get_self in H. cbn [self env disk] in H.
  apply bind_returns in H as (a & w3 & Ha & H).
  unfold lift in Ha. injection Ha as _ <-.
  rewrite bind_put_self, bind_get_self, when_put_self in H.
  injection H as <-. cbn [self env disk].
  destruct (_ <=? _); cbn; rewrite Hu; reflexivity.
Qed.

Lemma load_loop_tables csvs w w' :
  load_loop C csvs w = (Return tt, w') -> scores_csvs (self w') = scores_csvs (self w).
Proof.
  revert w. induction csvs as [|p csvs IH]; intros w H.
  - by injection H as <-.
  - cbn [load_loop] in H. apply bind_returns in H as ([] & w1 & H1 & H).
    apply load_step_tables in H1. apply IH in H. by rewrite H, H1.
Qed.
End LoadTables.

(** X18.  [Explorer(...)] fails on an incompatible acquirer before it looks
    at the numbers, and with [ValueError] on a [k] or [max_explore] that is
    not positive.  With nothing to load it returns an explorer at epoch 0
    with empty maps, an empty window and no table, holding the arguments as
    given.  With [previous_scores] it returns at epoch 1, the loaded scores
    not queued for training and no average stored; with [scores_csvs] alone
    it returns at the epoch that counts the tables replayed. *)
Theorem init_outcomes {Env : Type} (C : Collaborators Env)
    (pool0 needs0 provides0 : list string) (a : Args)
    (e : Env) (d : path -> option file) :
  (validate_acquirer needs0 provides0 = Raise IncompatibilityError ->
   init C pool0 needs0 provides0 a e d = Raise IncompatibilityError)
  /\ (validate_acquirer needs0 provides0 = Return tt ->
      num_nonpos (arg_k a) || num_nonpos (arg_max_explore a) = true ->
      init C pool0 needs0 provides0 a e d = Raise ValueError)
  /\ (validate_acquirer needs0 provides0 = Return tt ->
      num_nonpos (arg_k a) || num_nonpos (arg_max_explore a) = false ->
      arg_previous_scores a = None ->
      arg_scores_csvs a = CsvsNone \/ arg_scores_csvs a = CsvsList [] ->
      exists s, init C pool0 needs0 provides0 a e d = Return (mkWorld s e d)
                /\ epoch s = 0 /\ scores s = [] /\ failures s = []
                /\ new_scores s = [] /\ recent_avgs s = [] /\ scores_csvs s = []
                /\ top_k_avg s = None /\ y_preds s = None
                /\ pool s = pool0 /\ k_ s = arg_k a /\ max_explore_ s = arg_max_explore a
                /\ window_size s = arg_window_size a)
  /\ (forall w, init C pool0 needs0 provides0 a e d = Return w ->
      match arg_previous_scores a with
      | Some p =>
          epoch (self w) = 1 /\ is_Some (d p)
          /\ new_scores (self w) = [] /\ top_k_avg (self w) = None
          /\ recent_avgs (self w) = [] /\ env w = e /\ disk w = d
      | None =>
          epoch (self w) = Z.of_nat (length (scores_csvs (self w)))
          /\ match arg_scores_csvs a with
             | CsvsPickle p => d p = Some (Pickle (scores_csvs (self w)))
             | CsvsList l => scores_csvs (self w) = l
             | CsvsNone => scores_csvs (self w) = []
             end
      end).
Proof.
  split; [|split; [|split]].
  - intros Hv. unfold init, construct. by rewrite Hv.
  - intros Hv H. unfold init, construct, k_setter, max_explore_setter.
    rewrite Hv. cbn. destruct (num_nonpos (arg_k a)); [done|].
    cbn in *. by rewrite H.
  - intros Hv H Hp Hc. apply orb_false_iff in H as [Hk Hm].
    unfold init, construct, k_setter, max_explore_setter, init_load.
    rewrite Hv, Hk, Hm, Hp. cbn [obind].
    eexists. split.
    + destruct Hc as [-> | ->]; reflexivity.
    + by repeat split.
  - intros w H. unfold init in H.
    destruct (construct pool0 needs0 provides0 a) as [s0|] eqn:Ec; [|discriminate].
    cbn [obind] in H.
    assert (Hs0 : epoch s0 = 0 /\ new_scores s0 = [] /\ top_k_avg s0 = None
                  /\ recent_avgs s0 = []).
    { unfold construct in Ec. destruct (validate_acquirer needs0 provides0); [|discriminate].
      destruct (k_setter (arg_k a)); [|discriminate].
      destruct (max_explore_setter (arg_max_explore a)); [|discriminate].
      cbn in Ec. by injection Ec as <-. }
    destruct Hs0 as (He0 & Hn0 & Ht0 & Hr0).
    destruct (init_load C a (mkWorld s0 e d)) as [[[]|x] w1] eqn:El; [|discriminate].
    injection H as <-. unfold init_load in El.
    apply bind_returns in El as (csvs & wa & Hcs & El).
    rewrite bind_modify_self in El.
    assert (Hwa : wa = mkWorld s0 e d
                  /\ match arg_scores_csvs a with
                     | CsvsPickle p => d p = Some (Pickle csvs)
                     | CsvsList l => csvs = l
                     | CsvsNone => csvs = []
                     end).
    { destruct (arg_scores_csvs a) as [p|l|].
      - unfold mbind, M_bind, open_read in Hcs. cbn [disk] in Hcs.
        destruct (d p) as [[| |]|]; try discriminate; by injection Hcs as <- <-.
      - by injection Hcs as <- <-.
      - by injection Hcs as <- <-. }
    destruct Hwa as [-> Hcsvs]. cbn [self env disk] in El.
    destruct (arg_previous_scores a) as [p|].
    + apply load_scores_returns in El as (H1 & H2 & H3 & H4 & _ & H5 & H6 & H7).
      cbn [self env disk set_scores_csvs epoch new_scores top_k_avg recent_avgs] in *.
      rewrite He0 in H1. cbn in H1. by rewrite H1, H2, H3, H4, H5, H6, Hn0, Ht0, Hr0.
    + assert (Hld : load C (mkWorld (set_scores_csvs s0 csvs) e d) = (Return tt, w1)
                    \/ (w1 = mkWorld (set_scores_csvs s0 csvs) e d /\ csvs = [])).
      { destruct (arg_scores_csvs a) as [p|[|p l]|].
        - by left.
        - right. injection El as <-. by subst.
        - left. by subst.
        - right. injection El as <-. by subst. }
      destruct Hld as [Hld|[-> ->]].
      * pose proof (load_epoch C _ _ Hld) as Hep.
        unfold load in Hld. rewrite bind_get_self in Hld.
        apply load_loop_tables in Hld. cbn [self set_scores_csvs scores_csvs epoch] in *.
        rewrite Hld, Hep, He0. split; [lia|].
        destruct (arg_scores_csvs a); by subst.
      * cbn [self set_scores_csvs scores_csvs epoch length].
        split; [by rewrite He0|]. by destruct (arg_scores_csvs a).
Qed.

Lemma int_of_float_nonneg q n :
  (0 <= q)%Qc -> 0 <= n -> 0 <= int_of_float (float_mul_int q n).
Proof.
  intros Hq Hn. rewrite fraction_resolves_to_floor by done.
  assert (H0 : (0 <= this (float_mul_int q n))%Q).
  { unfold float_mul_int, Qcmult, Q2Qc. cbn [this]. apply Qred_nonneg.
    apply Qmult_le_0_compat; [exact Hq|]. unfold Qle. simpl. lia. }
  change 0 with (Qfloor 0). by apply Qfloor_resp_le.
Qed.

(** X19.  The resolved [k] is never more than the pool, and for a [k] the setter
    accepts never negative; the count [avg], [top_explored] and [top_preds]
    work with is never more than the number of scores either. *)
Theorem k_is_clamped (s : Explorer) (karg : option num) :
  k s <= len_pool s
  /\ (num_nonpos (k_ s) = false -> 0 <= k s)
  /\ resolve_k s karg <= PyDict.len (scores s).
Proof.
  unfold k, resolve_k. split; [lia|]. split; [|lia].
  intros Hpos. assert (0 <= len_pool s) by (unfold len_pool; lia).
  destruct (k_ s) as [z|q]; cbn in Hpos.
  - apply Z.leb_gt in Hpos. lia.
  - apply Z.leb_gt in Hpos.
    assert (0 <= int_of_float (float_mul_int q (len_pool s))); [|lia].
    apply int_of_float_nonneg; [|done]. unfold Qcle, Qle. cbn.
    change (Qred 0) with (0 # 1)%Q. cbn. lia.
Qed.

(** X20.  With a window of capacity 0 the convergence test divides by zero: as
    long as neither budget is exhausted, [completed] raises
    [ZeroDivisionError] instead of answering. *)
Theorem completed_needs_a_window (s : Explorer) :
  window_size s = 0%nat -> recent_avgs s = [] ->
  epoch s <= max_epochs s -> PyDict.len (scores s) < max_explore s ->
  completed s = Raise ZeroDivisionError.
Proof.
  intros Hw Hr He Hx. unfold completed.
  destruct (max_epochs s <? epoch s) eqn:E1; [lia|].
  destruct (max_explore s <=? PyDict.len (scores s)) eqn:E2; [lia|].
  by rewrite Hw, Hr.
Qed.

Lemma completed_needs_a_window_witness :
  completed (mkExplorer pool5 [] [] false (PyInt 2) (Q2Qc (1 # 100))
               (PyFloat (Qc_of_Z 1)) 50 true false false 1
               [("A"%string, Qc_of_Z 5)] [] [] None 0 [] None None None [])
  = Raise ZeroDivisionError.
Proof.
  apply completed_needs_a_window.
  - reflexivity.
  - reflexivity.
  - vm_compute. discriminate.
  - reflexivity.
Defined.

(** ** The model gate *)

Lemma update_model_spec {Env : Type} (C : Collaborators Env) (w : World Env) :
  update_model C w =
  if PyDict.len (new_scores (self w)) =? 0
  then (Return tt, mkWorld (set_updated_model (self w) (Some false)) (env w) (disk w))
  else match (if retrain_from_scratch (self w)
              then unzip_items (scores (self w))
              else unzip_items (new_scores (self w))) with
       | Raise e => (Raise e, w)
       | Return data =>
           (Return tt,
            mkWorld (set_updated_model (set_new_scores (self w) []) (Some true))
                    (model_train C (env w) data.1 data.2 (retrain_from_scratch (self w)))
                    (disk w))
       end.
Proof.
  unfold update_model. rewrite bind_get_self.
  destruct (PyDict.len (new_scores (self w)) =? 0); [reflexivity|].
  unfold mbind, M_bind, lift, call, modify_self.
  by destruct (if retrain_from_scratch (self w) then _ else _).
Qed.

(** X21.  [_update_model] touches only [new_scores], the staleness flag and the
    model.  When it returns, [new_scores] is empty and the flag says whether
    there was anything to train on.  It raises only [ValueError], only when
    retraining from scratch with new scores pending and an empty score map,
    and then it has changed nothing. *)
Theorem update_model_consumes_new_scores
    {Env : Type} (C : Collaborators Env) (w : World Env) :
  let w' := (update_model C w).2 in
  scores (self w') = scores (self w) /\ failures (self w') = failures (self w)
  /\ epoch (self w') = epoch (self w) /\ top_k_avg (self w') = top_k_avg (self w)
  /\ recent_avgs (self w') = recent_avgs (self w)
  /\ y_preds (self w') = y_preds (self w) /\ disk w' = disk w
  /\ ((update_model C w).1 = Return tt ->
      new_scores (self w') = []
      /\ updated_model (self w') = Some (negb (PyDict.len (new_scores (self w)) =? 0))
      /\ (new_scores (self w) = [] -> env w' = env w))
  /\ (forall e, (update_model C w).1 = Raise e ->
      e = ValueError /\ w' = w /\ retrain_from_scratch (self w) = true
      /\ scores (self w) = [] /\ new_scores (self w) <> []).
Proof.
  cbv zeta. rewrite update_model_spec.
  destruct (PyDict.len (new_scores (self w)) =? 0) eqn:En.
  - assert (Hn : new_scores (self w) = []).
    { apply Z.eqb_eq in En. unfold PyDict.len in En. by destruct (new_scores (self w)). }
    cbn. by repeat split.
  - assert (Hn : new_scores (self w) <> []).
    { intros Hn. rewrite Hn in En. discriminate. }
    destruct (retrain_from_scratch (self w)) eqn:Er.
    + destruct (scores (self w)) as [|xy sc] eqn:Es; cbn.
      * rewrite ?Es. repeat split; try done. congruence.
      * rewrite ?Es. by repeat split.
    + destruct (new_scores (self w)) as [|xy ns] eqn:Ens; [done|].
      cbn. rewrite ?Ens. by repeat split.
Qed.

Lemma update_predictions_spec {Env : Type} (C : Collaborators Env) (w : World Env) :
  update_predictions C w =
  if negb (default false (updated_model (self w)))
     && match y_preds (self w) with Some (_ :: _) => true | _ => false end
  then (Return tt, w)
  else
    let r := model_apply C (env w) (pool (self w)) (len_pool (self w))
               (negb (bool_decide ("vars"%string ∈ needs (self w)))) in
    let s' := set_updated_model
                (set_preds (self w) (Some r.1.1) (Some r.1.2)) (Some false) in
    (Return tt,
     mkWorld s' r.2
       (if save_preds (self w)
        then write_file (disk w) (PredsIter (epoch (self w)))
               (PredsCsv (zip_longest3 (pool (self w)) r.1.1 r.1.2))
        else disk w)).
Proof.
  unfold update_predictions. rewrite bind_get_self.
  destruct (_ && _); [reflexivity|]. cbv zeta.
  unfold mbind, M_bind, call, modify_self.
  destruct (model_apply C _ _ _ _) as [preds e]. cbn [self env disk fst snd].
  unfold when. destruct (save_preds (self w)); [|reflexivity].
  unfold write_preds. rewrite bind_get_self. reflexivity.
Qed.

(** X22.  [_update_predictions] raises nothing of its own and touches neither the
    maps, the epoch nor [new_scores].  It leaves the world as it is when the
    staleness flag is off and predictions exist; otherwise it asks the model,
    and then the predictions are set and the flag is off.  Either way the
    flag is off and the predictions are set when it is done. *)
Theorem update_predictions_clears_staleness
    {Env : Type} (C : Collaborators Env) (w : World Env) :
  let w' := (update_predictions C w).2 in
  (update_predictions C w).1 = Return tt
  /\ scores (self w') = scores (self w) /\ failures (self w') = failures (self w)
  /\ epoch (self w') = epoch (self w) /\ new_scores (self w') = new_scores (self w)
  /\ is_Some (y_preds (self w'))
  /\ default false (updated_model (self w')) = false
  /\ (default false (updated_model (self w)) = false ->
      (exists y ys, y_preds (self w) = Some (y :: ys)) -> w' = w).
Proof.
  cbv zeta. rewrite update_predictions_spec.
  destruct (default false (updated_model (self w))) eqn:Eu; cbn [negb andb].
  - cbn. by repeat split.
  - destruct (y_preds (self w)) as [[|y ys]|] eqn:Ey; cbn.
    + repeat split; try done. intros _ (y & ys & [=]).
    + rewrite Ey, Eu. by repeat split.
    + repeat split; try done. intros _ (y & ys & [=]).
Qed.

(** ** The top predictions *)

Lemma length_siftdown_loop fuel heap newitem startpos pos :
  length (Heapq.siftdown_loop fuel heap newitem startpos pos) = length heap.
Proof.
  revert heap pos.
  induction fuel as [|fuel IH]; intros heap pos; cbn [Heapq.siftdown_loop].
  - apply length_insert.
  - destruct (startpos <? pos)%nat; [|apply length_insert].
    destruct (heap !! _); [|apply length_insert].
    destruct (Heapq.lt newitem _); [|apply length_insert].
    rewrite IH. apply length_insert.
Qed.

Lemma length_siftdown heap startpos pos :
  length (Heapq.siftdown heap startpos pos) = length heap.
Proof.
  unfold Heapq.siftdown. destruct (heap !! pos); [|done]. apply length_siftdown_loop.
Qed.

Lemma length_siftup_loop fuel heap pos :
  length (Heapq.siftup_loop fuel heap pos).1 = length heap.
Proof.
  revert heap pos.
  induction fuel as [|fuel IH]; intros heap pos; cbn [Heapq.siftup_loop]; [done|].
  cbv zeta. destruct (_ <? _)%nat; [|done].
  destruct (heap !! _); [|done]. rewrite IH. apply length_insert.
Qed.

Lemma length_siftup heap pos : length (Heapq.siftup heap pos) = length heap.
Proof.
  unfold Heapq.siftup. destruct (heap !! pos); [|done].
  pose proof (length_siftup_loop (length heap) heap pos) as H.
  destruct (Heapq.siftup_loop (length heap) heap pos) as [heap' pos']. cbn in H.
  by rewrite length_siftdown, length_insert.
Qed.

Lemma length_heappush heap x : length (Heapq.heappush heap x) = S (length heap).
Proof.
  unfold Heapq.heappush. rewrite length_siftdown, length_app. cbn. lia.
Qed.

Lemma length_heappushpop heap x : length (Heapq.heappushpop heap x) = length heap.
Proof.
  unfold Heapq.heappushpop. destruct heap as [|top rest]; [done|].
  destruct (Heapq.lt top x); [|done]. by rewrite length_siftup.
Qed.

Lemma length_selected (k : Z) (l : list (string * Qc)) (selected : list Heapq.item) :
  (length selected <= Z.to_nat k)%nat ->
  length (foldl (fun selected xy =>
                   if Z.of_nat (length selected) <? k
                   then Heapq.heappush selected (xy.2, xy.1)
                   else Heapq.heappushpop selected (xy.2, xy.1))
                selected l)
  = (Z.to_nat k `min` (length selected + length l))%nat.
Proof.
  revert selected. induction l as [|xy l IH]; intros selected Hlen; cbn [foldl length].
  - lia.
  - destruct (Z.of_nat (length selected) <? k) eqn:E.
    + apply Z.ltb_lt in E. rewrite IH; rewrite length_heappush; lia.
    + apply Z.ltb_ge in E. rewrite IH; rewrite length_heappushpop; lia.
Qed.

(** X23.  [top_preds] raises [TypeError] when there are no predictions yet;
    otherwise it returns as many pairs as the clamped count allows, at most
    one per predicted input.  The count is clamped to the number of scores,
    so with an empty score map it returns nothing, whatever was predicted. *)
Theorem top_preds_size (s : Explorer) (karg : option num) :
  (y_preds s = None -> top_preds s karg = Raise TypeError)
  /\ (forall preds, y_preds s = Some preds ->
      exists top,
        top_preds s karg = Return top
        /\ length top
           = (Z.to_nat (resolve_k s karg)
              `min` (length (pool s) `min` length preds))%nat
        /\ (scores s = [] -> top = [])).
Proof.
  unfold top_preds. split; [by intros ->|]. intros preds ->.
  eexists. split; [reflexivity|].
  assert (Hlen : forall A B (f : A -> B) l, length (map f l) = length l)
    by (intros; apply length_map).
  rewrite Hlen, length_selected by (cbn; lia). cbn [length].
  rewrite length_zip. split; [lia|].
  intros Hs. apply nil_length_inv.
  rewrite Hlen, length_selected by (cbn; lia).
  pose proof (resolve_k_empty s karg Hs). lia.
Qed.

(** ** What the acquirer is told *)

Lemma get_map_values {V W} (f : V -> W) (d : list (string * V)) x :
  PyDict.get (map (fun xv => (xv.1, f xv.2)) d) x = f <$> PyDict.get d x.
Proof.
  induction d as [|[y v] d IH]; cbn; [done|]. by destruct (decide (y = x)).
Qed.

Lemma last_value_map_const {V W} (c : W) (l : list (string * V)) x :
  PyDict.last_value (map (fun xv => (xv.1, c)) l) x
  = if decide (x ∈ PyDict.keys l) then Some c else None.
Proof.
  unfold PyDict.keys. induction l as [|[y v] l IH].
  - cbn. destruct (decide _) as [H|]; [by apply elem_of_nil in H|done].
  - cbn [map fst]. rewrite last_value_cons, IH.
    destruct (decide (x ∈ map fst l)) as [Hin|Hin].
    + rewrite decide_True; [done|]. by apply elem_of_cons; right.
    + destruct (decide (y = x)) as [->|Hne].
      * rewrite decide_True; [done|]. apply elem_of_cons; by left.
      * rewrite decide_False; [done|]. intros [->|H]%elem_of_cons; done.
Qed.

(** X24.  The [explored] dict that [explore_batch] hands to the acquirer lists an
    input that ever failed as [None], also when the input has a score; every
    other input is listed with its score, and an input that was never
    evaluated is not listed. *)
Theorem explored_lists_failures_first (s : Explorer) (x : string) :
  PyDict.get (explored s) x
  = if decide (x ∈ PyDict.keys (failures s)) then Some None
    else Some <$> PyDict.get (scores s) x.
Proof.
  unfold explored. rewrite get_update, (last_value_map_const None).
  destruct (decide _); [done|].
  apply (get_map_values Some).
Qed.

(** ** The report at the end of a run *)

(** In the exact product a fraction of the pool that is less than one input
    truncates to 0.  The report's [0.0001] is such a fraction on every pool
    of fewer than 10000 inputs, where the double product is below 1 too. *)
Lemma tiny_fraction_truncates (q : Qc) (n : Z) :
  (0 <= q)%Qc -> 0 <= n -> (q * Qc_of_Z n < 1)%Qc ->
  int_of_float (float_mul_int q n) = 0.
Proof.
  intros Hq Hn Hlt. rewrite fraction_resolves_to_floor by done.
  pose proof (int_of_float_nonneg q n Hq Hn) as H0.
  rewrite fraction_resolves_to_floor in H0 by done.
  unfold float_mul_int in *.
  pose proof (Qfloor_le (this (q * Qc_of_Z n)%Qc)) as Hle.
  assert (H1 : (inject_Z (Qfloor (this (q * Qc_of_Z n)%Qc)) < inject_Z 1)%Q).
  { eapply Qle_lt_trans; [exact Hle|]. exact Hlt. }
  rewrite <- Zlt_Qlt in H1. lia.
Qed.

Lemma resolve_k_tiny_fraction (s : Explorer) (q : Qc) :
  (0 < q)%Qc -> (q * Qc_of_Z (len_pool s) < 1)%Qc ->
  resolve_k s (Some (PyFloat q)) = 0.
Proof.
  intros Hq Hlt. unfold resolve_k.
  assert (Ht : truthy (PyFloat q) = true).
  { unfold truthy. apply negb_true_iff, Z.eqb_neq.
    assert (Hq' : (0 < this q)%Q) by exact Hq.
    unfold Qlt in Hq'. cbn [Qnum Qden] in Hq'. lia. }
  rewrite Ht, tiny_fraction_truncates; [| by apply Qclt_le_weak | | done].
  - unfold PyDict.len. lia.
  - unfold len_pool. lia.
Qed.

(** With a count of 0 [avg] divides by zero, whatever [top_explored] gave. *)
Lemma avg_zero_count (s : Explorer) (karg : option num) :
  resolve_k s karg = 0 ->
  returns (avg s karg) = false
  /\ (pool s <> [] -> avg s karg = Raise ZeroDivisionError).
Proof.
  intros Hk. unfold avg. cbv zeta. rewrite Hk.
  destruct (0 =? len_pool s) eqn:E.
  - apply Z.eqb_eq in E. split.
    + by destruct (scores s).
    + intros Hp. exfalso. unfold len_pool in E. by destruct (pool s).
  - unfold top_explored.
    destruct (PyDict.len (scores s) =? 0); [done|].
    by destruct (5 * _ <? _).
Qed.

Lemma resolve_k_le_scores (s : Explorer) (karg : option num) :
  resolve_k s karg <= PyDict.len (scores s).
Proof. unfold resolve_k. lia. Qed.

Lemma len_scores_pos (s : Explorer) : scores s <> [] <-> PyDict.len (scores s) <> 0.
Proof. unfold PyDict.len. destruct (scores s); cbn; split; intros; try done; lia. Qed.

(** X25.  [avg] returns exactly when there are scores, the clamped count is
    not 0 and the clamped count is not the size of the pool.  When it fails,
    it fails with [TypeError] if the count is the size of the pool and there
    are scores (the sum over dict items), and with the [ZeroDivisionError]
    of a division by the count or by the number of scores otherwise. *)
Theorem avg_returns_iff (s : Explorer) (karg : option num) :
  (returns (avg s karg) = true
   <-> scores s <> [] /\ resolve_k s karg <> 0 /\ resolve_k s karg <> len_pool s)
  /\ (forall e, avg s karg = Raise e ->
      e = if (resolve_k s karg =? len_pool s) && negb (PyDict.len (scores s) =? 0)
          then TypeError else ZeroDivisionError).
Proof.
  pose proof (resolve_k_le_scores s karg) as Hle.
  pose proof (len_scores_pos s) as Hpos.
  unfold avg. cbv zeta.
  destruct (resolve_k s karg =? len_pool s) eqn:E.
  - apply Z.eqb_eq in E. destruct (scores s) as [|xy l] eqn:Es.
    + assert (Hk : resolve_k s karg = 0).
      { unfold PyDict.len, len_pool in *. cbn in Hle. lia. }
      rewrite Hk. cbn. split; [split; [done|tauto]|]. by intros e [= <-].
    + split.
      * split; [done|]. intros (_ & _ & H). by rewrite E in H.
      * intros e [= <-]. by destruct (PyDict.len (xy :: l) =? 0) eqn:E0.
  - apply Z.eqb_neq in E. unfold top_explored.
    destruct (PyDict.len (scores s) =? 0) eqn:E0.
    + apply Z.eqb_eq in E0. cbn. split; [|by intros e [= <-]].
      split; [done|]. intros (H & _). tauto.
    + apply Z.eqb_neq in E0.
      set (top := if 5 * _ <? _ then Return _ else Return _).
      assert (Htop : exists l, top = Return l :> outcome (list (string * Qc))).
      { unfold top. destruct (5 * _ <? _); eauto. }
      destruct Htop as [l ->]. cbn [obind]. unfold div_int.
      destruct (resolve_k s karg =? 0) eqn:Ek.
      * apply Z.eqb_eq in Ek. cbn. split; [|by intros e [= <-]].
        split; [done|]. intros (_ & H & _). done.
      * apply Z.eqb_neq in Ek. cbn. split; [|done].
        split; [|done]. intros _. tauto.
Qed.

Section Report.
Context {Env : Type} (C : Collaborators Env).
Implicit Types (w : World Env) (s : Explorer).

Lemma rounds_keep_pool w :
  pool (self (explore_initial C w).2) = pool (self w)
  /\ pool (self (explore_batch C w).2) = pool (self w).
Proof.
  apply (round_ends C (fun w w' => pool (self w') = pool (self w))).
  - done.
  - done.
  - by intros w0 w1 [(ns & me & va & um & ->) _].
  - intros w0 w1 batch [(ns & me & va & um & Hs) _].
    assert (He : forall a, pool (feed_window (clean_and_update_scores (self w1) batch) a)
                           = pool (self w0)).
    { intros a.
      pose proof (books_feed_window (clean_and_update_scores (self w1) batch) a) as Hb.
      rewrite books_clean_and_update_scores in Hb. injection Hb as -> _ _ _ _ _ _ _.
      by rewrite Hs. }
    destruct (finish_round_cases batch w1) as [(e & _ & ->)|(a & _ & [[_ ->]|[_ ->]])];
      cbn [snd self set_epoch set_scores_csvs pool].
    + rewrite clean_and_update_scores_spec, Hs. done.
    + apply He.
    + apply He.
Qed.

Lemma bind_ret_world {A} (m : M Env A) w :
  ((m ≫= fun _ => mret tt) w).2 = (m w).2.
Proof. unfold mbind, M_bind. by destruct (m w) as [[a|e] w1]. Qed.

Lemma first_round_pool w : pool (self (first_round C w).2) = pool (self w).
Proof.
  unfold first_round. rewrite bind_get_self.
  destruct (epoch (self w) =? 0); rewrite bind_ret_world; apply rounds_keep_pool.
Qed.

Lemma run_loop_pool fuel w : pool (self (run_loop C fuel w).2) = pool (self w).
Proof.
  revert w. induction fuel as [|fuel IH]; intros w; [done|].
  cbn [run_loop]. rewrite bind_get_self. unfold mbind at 1, M_bind at 1, lift.
  destruct (completed (self w)) as [[|]|e]; [done| |done].
  unfold mbind, M_bind.
  pose proof (proj2 (rounds_keep_pool w)) as Hp.
  destruct (explore_batch C w) as [[a|e] w1]; [|done].
  rewrite IH. exact Hp.
Qed.

Lemma small_pool_fraction s :
  len_pool s < 10000 -> (Q2Qc (1 # 10000) * Qc_of_Z (len_pool s) < 1)%Qc.
Proof.
  intros H. unfold Qclt, Qcmult, Q2Qc. cbn [this Qc_of_Z].
  rewrite !Qred_correct. unfold Qlt, Qmult, inject_Z. cbn [Qnum Qden]. lia.
Qed.

(** X26.  [run] ends with a report that takes [avg(0.0001)].  On a pool of
    fewer than 10000 inputs that fraction is less than one input, so [run]
    never returns: when the rounds are done and the loop has stopped, the
    report raises, [ZeroDivisionError] if the pool is not empty and an
    average is stored, and no final table is written. *)
Theorem run_report_fails_on_small_pools fuel w :
  len_pool (self w) < 10000 ->
  (run C fuel w).1 <> Return true
  /\ forall w1 w2,
       first_round C w = (Return tt, w1) ->
       run_loop C fuel w1 = (Return true, w2) ->
       pool (self w) <> [] -> is_Some (top_k_avg (self w2)) ->
       run C fuel w = (Raise ZeroDivisionError, w2).
Proof.
  intros Hsmall.
  assert (Hend : forall w1 w2,
            first_round C w = (Return tt, w1) ->
            run_loop C fuel w1 = (Return true, w2) ->
            pool (self w2) = pool (self w)).
  { intros w1 w2 H1 H2.
    pose proof (first_round_pool w) as Hp1. rewrite H1 in Hp1.
    pose proof (run_loop_pool fuel w1) as Hp2. rewrite H2 in Hp2.
    cbn in Hp1, Hp2. congruence. }
  assert (Havg : forall w2, pool (self w2) = pool (self w) ->
            returns (avg (self w2) (Some (PyFloat (Q2Qc (1 # 10000))))) = false
            /\ (pool (self w) <> [] ->
                avg (self w2) (Some (PyFloat (Q2Qc (1 # 10000)))) = Raise ZeroDivisionError)).
  { intros w2 Hp.
    destruct (avg_zero_count (self w2) (Some (PyFloat (Q2Qc (1 # 10000))))) as [Ha Hb].
    - apply resolve_k_tiny_fraction; [by vm_compute|].
      apply small_pool_fraction. unfold len_pool in *. by rewrite Hp.
    - split; [done|]. intros Hne. apply Hb. by rewrite Hp. }
  unfold run. split.
  - unfold mbind, M_bind.
    destruct (first_round C w) as [[[]|e] w1] eqn:E1; [|done].
    destruct (run_loop C fuel w1) as [[[|]|e] w2] eqn:E2; [|done|done].
    unfold get_self, raise, lift. cbn [fst].
    destruct (top_k_avg (self w2)); [|done].
    destruct (Havg w2 (Hend w1 w2 eq_refl E2)) as [Ha _].
    by destruct (avg (self w2) _).
  - intros w1 w2 E1 E2 Hne [a Ha].
    unfold mbind, M_bind. rewrite E1, E2.
    unfold get_self, raise, lift. rewrite Ha.
    destruct (Havg w2 (Hend w1 w2 E1 E2)) as [_ Hb]. by rewrite (Hb Hne).
Qed.
End Report.

Lemma run_report_fails_on_small_pools_witness :
  run demo 1 short_w0 = (Raise ZeroDivisionError, short_w1).
Proof.
  assert (Hsmall : len_pool (self short_w0) < 10000) by (vm_compute; reflexivity).
  apply (proj2 (run_report_fails_on_small_pools demo 1 short_w0 Hsmall) short_w1 short_w1).
  - apply pair_eq; [vm_compute; reflexivity|unfold short_w1; reflexivity].
  - apply pair_eq; vm_compute; reflexivity.
  - discriminate.
  - vm_compute. eauto.
Defined.

(** ** A count of zero *)

Lemma resolve_k_default (s : Explorer) :
  resolve_k s None = Z.min (k s) (PyDict.len (scores s)).
Proof. reflexivity. Qed.

Lemma top_preds_length (s : Explorer) (karg : option num) (preds : list Qc) :
  y_preds s = Some preds ->
  exists top,
    top_preds s karg = Return top
    /\ length top
       = (Z.to_nat (resolve_k s karg) `min` (length (pool s) `min` length preds))%nat.
Proof.
  intros Hp. unfold top_preds. rewrite Hp. eexists. split; [reflexivity|].
  rewrite length_map, length_selected by (cbn; lia). cbn [length].
  rewrite length_zip. lia.
Qed.

(** C10, as the code has it.  A count of [0] or [0.0] is falsy, so the three
    methods take [self.k], clamped to the number of scores, and do exactly
    what they do without a count.  That gives a result that is not empty
    only when [self.k] is at least 1 and there are scores (for [avg], when
    moreover the clamped count is not the pool size); when [self.k] is
    itself 0 the selections are empty and [avg] fails. *)
Theorem zero_count_takes_default_k (s : Explorer) (zero : num) :
  zero = PyInt 0 \/ zero = PyFloat (Qc_of_Z 0) ->
  resolve_k s (Some zero) = Z.min (k s) (PyDict.len (scores s))
  /\ avg s (Some zero) = avg s None
  /\ top_explored s (Some zero) = top_explored s None
  /\ top_preds s (Some zero) = top_preds s None
  /\ (1 <= k s -> scores s <> [] ->
      (exists top, top_explored s (Some zero) = Return top /\ top <> [])
      /\ (Z.min (k s) (PyDict.len (scores s)) <> len_pool s ->
          returns (avg s (Some zero)) = true)
      /\ (forall preds, y_preds s = Some preds -> pool s <> [] -> preds <> [] ->
          exists top, top_preds s (Some zero) = Return top /\ top <> []))
  /\ (k s = 0 ->
      (scores s <> [] -> top_explored s (Some zero) = Return [])
      /\ returns (avg s (Some zero)) = false
      /\ (forall preds, y_preds s = Some preds -> top_preds s (Some zero) = Return [])).
Proof.
  intros Hz.
  assert (Hk : resolve_k s (Some zero) = Z.min (k s) (PyDict.len (scores s)))
    by (by destruct Hz as [-> | ->]).
  assert (Ha : avg s (Some zero) = avg s None) by (by destruct Hz as [-> | ->]).
  assert (Ht : top_explored s (Some zero) = top_explored s None)
    by (by destruct Hz as [-> | ->]).
  assert (Hp : top_preds s (Some zero) = top_preds s None)
    by (by destruct Hz as [-> | ->]).
  split; [exact Hk|]. split; [exact Ha|]. split; [exact Ht|]. split; [exact Hp|].
  clear Hz. split.
  - intros Hk1 Hs. apply len_scores_pos in Hs.
    assert (Hlen : 0 <= PyDict.len (scores s)) by (unfold PyDict.len; lia).
    assert (Hn : 1 <= resolve_k s (Some zero)) by lia.
    split; [|split].
    + unfold top_explored. destruct (PyDict.len (scores s) =? 0) eqn:E0; [lia|].
      destruct (5 * _ <? _) eqn:E5; eexists; (split; [reflexivity|]);
        intros Hnil; apply (f_equal length) in Hnil; revert Hnil.
      * unfold nlargest. rewrite length_take, length_sorted_desc.
        unfold PyDict.len in *. cbn. lia.
      * rewrite length_sorted_desc. unfold PyDict.len in *. cbn. lia.
    + intros Hne. unfold avg. cbv zeta. rewrite Hk.
      destruct (_ =? len_pool s) eqn:E; [lia|].
      unfold top_explored. destruct (PyDict.len (scores s) =? 0) eqn:E0; [lia|].
      destruct (5 * _ <? _); cbn [obind]; unfold div_int;
        by destruct (Z.min (k s) (PyDict.len (scores s)) =? 0) eqn:Ez; [lia|].
    + intros preds Hy Hpool Hpreds.
      destruct (top_preds_length s (Some zero) preds Hy) as (top & Htop & Hl).
      exists top. split; [done|]. intros ->. cbn in Hl.
      destruct (pool s); [done|]. destruct preds; [done|]. cbn in Hl. lia.
  - intros Hk0. rewrite Hk0 in Hk.
    assert (Hlen : 0 <= PyDict.len (scores s)) by (unfold PyDict.len; lia).
    assert (Hn : resolve_k s (Some zero) = 0) by lia.
    split; [|split].
    + intros Hs. apply len_scores_pos in Hs.
      unfold top_explored. rewrite Hn.
      destruct (PyDict.len (scores s) =? 0) eqn:E0; [lia|].
      destruct (5 * 0 <? _) eqn:E5; [done|lia].
    + apply (avg_zero_count s (Some zero) Hn).
    + intros preds Hy.
      destruct (top_preds_length s (Some zero) preds Hy) as (top & Htop & Hl).
      rewrite Htop. f_equal. apply nil_length_inv. rewrite Hl, Hn. done.
Qed.

Lemma zero_count_takes_default_k_witness :
  resolve_k explorer5 (Some (PyInt 0))
  = Z.min (k explorer5) (PyDict.len (scores explorer5))
  /\ avg explorer5 (Some (PyInt 0)) = avg explorer5 None
  /\ top_explored explorer5 (Some (PyInt 0)) = top_explored explorer5 None
  /\ top_preds explorer5 (Some (PyInt 0)) = top_preds explorer5 None.
Proof.
  destruct (zero_count_takes_default_k explorer5 (PyInt 0) (or_introl eq_refl))
    as (H1 & H2 & H3 & H4 & _).
  done.
Defined.

(** C10 as stated fails for the default [k=0.01] on a pool of five: [self.k]
    is [int(0.05) = 0], so a count of 0 gets an empty selection from
    [top_explored] and a [ZeroDivisionError] from [avg]. *)
Lemma zero_count_with_default_k_gives_nothing :
  k explorer_default_k = 0
  /\ top_explored explorer_default_k (Some (PyInt 0)) = Return []
  /\ avg explorer_default_k (Some (PyInt 0)) = Raise ZeroDivisionError.
Proof. repeat split; vm_compute; reflexivity. Qed.
